(** * sportsbot2 ([bot.py]): rating store, Elo update, predictions, slate

    A shallow embedding of the rating-and-prediction engine of [bot.py].

    Conventions of the embedding:
    - a Python [float] is a real number ([R]); [10 ** x] is [Rpower 10 x].
      Rounding, overflow and NaN of IEEE doubles are outside the model;
    - the weather request is an answer of the world; the formatting of its
      two hour stamps, which can leave the range of [datetime] for a
      timestamp in the last hour of year 9999, is outside the model;
    - the SQLite file [model.db] is a record with one field per table;
    - a function that touches the database or the chat, or that may raise,
      lives in the monad [M]: it takes the state and returns the state
      together with a value or the exception raised. *)

From stdpp Require Import gmap strings list.
From Stdlib Require Import Ascii ZArith Reals Lra Lia.
From Stdlib Require Import Sorting.Sorted Sorting.Permutation.
From Stdlib Require OrderedTypeEx.


(** ** State, exceptions and the monad *)

(** The two tables created by [db()], and the messages sent to the chat. *)
Record state := mkState {
  elo : gmap string R;                      (* elo(key PRIMARY KEY, rating) *)
  results : list (string * string * Z);     (* results(sport, item_key, ts) *)
  chat : list string                        (* reply_text / send_message, oldest first *)
}.

Definition fresh_state : state := mkState ∅ [] [].

Definition set_elo (st : state) (m : gmap string R) : state :=
  mkState m (results st) (chat st).

Definition set_results (st : state) (r : list (string * string * Z)) : state :=
  mkState (elo st) r (chat st).

Definition push_chat (st : state) (msg : string) : state :=
  mkState (elo st) (results st) (chat st ++ [msg]).

Inductive exn : Type :=
| ValueError        (* datetime.fromisoformat on a malformed string *)
| AttributeError    (* None.replace *)
| HTTPError         (* requests: raise_for_status, transport errors *)
| OverflowError     (* astimezone: date value out of range *)
| KeyError.         (* SPORT_KEYS[lg] on an unknown league *)

Inductive result (A : Type) : Type :=
| Ok (a : A)
| Raise (e : exn).
Arguments Ok {A} a.
Arguments Raise {A} e.

Definition M (A : Type) : Type := state -> result A * state.

Definition raise {A} (e : exn) : M A := fun st => (Raise e, st).

#[global] Instance M_ret : MRet M := fun A a st => (Ok a, st).
#[global] Instance M_bind : MBind M := fun A B k c st =>
  match c st with
  | (Ok a, st') => k a st'
  | (Raise e, st') => (Raise e, st')
  end.

Definition ret {A} (a : A) : M A := mret a.

(** ** Storage *)

Definition BASE : R := 1500.0%R.

(** [elo_get(key, base=1500.0)]: the stored rating, or insert [base] and
    return it. *)
Definition elo_get (key : string) (base : R) : M R :=
  fun st => match elo st !! key with
            | Some rating => (Ok rating, st)
            | None => (Ok base, set_elo st (<[key := base]> (elo st)))
            end.

(** [elo_set(key, rating)]: INSERT OR REPLACE. *)
Definition elo_set (key : string) (rating : R) : M unit :=
  fun st => (Ok tt, set_elo st (<[key := rating]> (elo st))).

(** [10 ** x] *)
Definition pow10 (x : R) : R := Rpower 10 x.

(** [Sa = 1.0 if a_score > b_score else (0.5 if a_score == b_score else 0.0)] *)
Definition actual_score (a_score b_score : Z) : R :=
  if (b_score <? a_score)%Z then 1.0%R
  else if (a_score =? b_score)%Z then 0.5%R else 0.0%R.

(** The arithmetic of [elo_update] on the two ratings read. *)
Definition elo_new_ratings (Ra Rb : R) (a_score b_score : Z) (k : R) : R * R :=
  let Ea := (1.0 / (1 + pow10 ((Rb - Ra) / 400)))%R in
  let Eb := (1.0 / (1 + pow10 ((Ra - Rb) / 400)))%R in
  let Sa := actual_score a_score b_score in
  let Sb := (1.0 - Sa)%R in
  let Ra2 := (Ra + k * (Sa - Ea))%R in
  let Rb2 := (Rb + k * (Sb - Eb))%R in
  (Ra2, Rb2).

(** [elo_update(a_key, b_key, a_score, b_score, k=20.0)] *)
Definition elo_update (a_key b_key : string) (a_score b_score : Z) (k : R) : M unit :=
  Ra ← elo_get a_key BASE;
  Rb ← elo_get b_key BASE;
  let '(Ra2, Rb2) := elo_new_ratings Ra Rb a_score b_score k in
  elo_set a_key Ra2;; elo_set b_key Rb2.

(** The rating a key stands for: the stored one, else the base rating
    [elo_get] would insert. *)
Definition rating (st : state) (key : string) : R :=
  default BASE (elo st !! key).

(** ** Model scoring *)

(** [1.0 / (1.0 + 10 ** (-diff/400))], the last two lines of each
    [*_predict]. *)
Definition win_prob (diff : R) : R := (1.0 / (1.0 + pow10 (- diff / 400)))%R.

(** An f-string field: [None] prints as the word None. *)
Definition py_str (v : option string) : string := default "None" v.

(** Python truthiness of an optional number: [None] and zero are false. *)
Definition truthy (v : option R) : option R :=
  match v with
  | Some x => if Req_dec_T x 0 then None else Some x
  | None => None
  end.

Definition mlb_predict (home away : option string) (pf : Z)
    (temp_c wind_kmh : option R) : M R :=
  Rh ← elo_get ("MLB:" +:+ py_str home) BASE;
  Ra ← elo_get ("MLB:" +:+ py_str away) BASE;
  let Rh := (Rh + 30.0)%R in
  let Rh := (Rh + IZR (pf - 100) * 0.2)%R in
  let Rh := match temp_c with
            | Some t => (Rh + (t - 20) * 0.5)%R
            | None => Rh
            end in
  let Rh := match wind_kmh with
            | Some w => if Rlt_dec 30 w then (Rh + 3)%R else Rh
            | None => Rh
            end in
  let diff := (Rh - Ra)%R in
  ret (win_prob diff).

Definition nfl_predict (home away : option string) (outdoor : bool)
    (temp_c wind_kmh precip_prob : option R) (rest_home rest_away : Z) : M R :=
  Rh ← elo_get ("NFL:" +:+ py_str home) BASE;
  Ra ← elo_get ("NFL:" +:+ py_str away) BASE;
  let Rh := (Rh + 55.0)%R in
  let Rh := (Rh + IZR (rest_home - rest_away) * 1.5)%R in
  let Rh :=
    if outdoor then
      let Rh := match truthy wind_kmh with
                | Some w => if Rge_dec w 32 then (Rh + 5)%R else Rh
                | None => Rh
                end in
      let Rh := match temp_c with
                | Some t => if Rle_dec t 5 then (Rh + 3)%R else Rh
                | None => Rh
                end in
      let Rh := match truthy precip_prob with
                | Some p => if Rge_dec p 60 then (Rh + 2)%R else Rh
                | None => Rh
                end in
      Rh
    else Rh in
  let diff := (Rh - Ra)%R in
  ret (win_prob diff).

Definition ufc_predict (fa fb : string) : M R :=
  Ra ← elo_get ("UFC:" +:+ fa) BASE;
  Rb ← elo_get ("UFC:" +:+ fb) BASE;
  let diff := (Ra - Rb)%R in
  ret (win_prob diff).

(** ** Static tables *)

(** [d.get(k)] on a dictionary literal. *)
Definition dict_get {V} (d : list (string * V)) (k : string) : option V :=
  snd <$> List.find (fun kv => String.eqb (fst kv) k) d.

Definition SPORT_KEYS : list (string * string) :=
  [ ("mlb", "baseball_mlb"); ("nfl", "americanfootball_nfl");
    ("ufc", "mma_mixed_martial_arts") ].

Definition MLB_PARK_FACTORS : list (string * Z) :=
  [ ("Coors Field", 118); ("Fenway Park", 106); ("Yankee Stadium", 104);
    ("Globe Life Field", 99); ("Dodger Stadium", 101); ("Wrigley Field", 102);
    ("Oracle Park", 96); ("Tropicana Field", 97); ("T-Mobile Park", 95);
    ("Great American Ball Park", 104); ("Minute Maid Park", 101);
    ("Truist Park", 102); ("Busch Stadium", 98); ("Citi Field", 97);
    ("Nationals Park", 100); ("Guaranteed Rate Field", 103);
    ("Target Field", 98); ("Comerica Park", 98); ("Progressive Field", 99) ]%Z.

Definition NFL_OUTDOOR_STADIA : list (string * bool) :=
  [ ("Lambeau Field", true); ("Soldier Field", true);
    ("Arrowhead Stadium", true); ("MetLife Stadium", true);
    ("Highmark Stadium", true); ("Lincoln Financial Field", true);
    ("Gillette Stadium", true); ("Cleveland Browns Stadium", true);
    ("M&T Bank Stadium", true); ("Acrisure Stadium", true);
    ("TIAA Bank Field", true); ("Lumen Field", true);
    ("Empower Field at Mile High", true); ("Levi's Stadium", true);
    ("Raymond James Stadium", true); ("Bank of America Stadium", true);
    ("SoFi Stadium", false); ("U.S. Bank Stadium", false);
    ("Mercedes-Benz Stadium", false); ("Caesars Superdome", false);
    ("Ford Field", false); ("Allegiant Stadium", false);
    ("NRG Stadium", false); ("AT&T Stadium", false);
    ("State Farm Stadium", false); ("Lucas Oil Stadium", false);
    ("Nissan Stadium", true) ].

Definition STADIUM_COORDS : list (string * (R * R)) :=
  [ ("Coors Field", (39.7559, -104.9942)); ("Fenway Park", (42.3467, -71.0972));
    ("Yankee Stadium", (40.8296, -73.9262));
    ("Globe Life Field", (32.7473, -97.0846));
    ("Dodger Stadium", (34.0739, -118.2390));
    ("Wrigley Field", (41.9484, -87.6553)); ("Oracle Park", (37.7786, -122.3893));
    ("T-Mobile Park", (47.5914, -122.3325));
    ("Lambeau Field", (44.5013, -88.0622)); ("MetLife Stadium", (40.8128, -74.0742));
    ("Highmark Stadium", (42.7738, -78.7867));
    ("Lincoln Financial Field", (39.9008, -75.1675));
    ("Gillette Stadium", (42.0909, -71.2643));
    ("Arrowhead Stadium", (39.0490, -94.4839));
    ("Acrisure Stadium", (40.4468, -80.0158));
    ("Levi's Stadium", (37.4030, -121.9690)); ("SoFi Stadium", (33.9535, -118.3387));
    ("U.S. Bank Stadium", (44.9735, -93.2575)) ]%R.

(** local to [mlb_features] *)
Definition TEAM_PARK : list (string * string) :=
  [ ("Colorado Rockies", "Coors Field"); ("Boston Red Sox", "Fenway Park");
    ("New York Yankees", "Yankee Stadium");
    ("Los Angeles Dodgers", "Dodger Stadium"); ("Chicago Cubs", "Wrigley Field");
    ("San Francisco Giants", "Oracle Park"); ("Seattle Mariners", "T-Mobile Park");
    ("Texas Rangers", "Globe Life Field");
    ("Cincinnati Reds", "Great American Ball Park") ].

(** local to [nfl_features] *)
Definition TEAM_STADIUM : list (string * string) :=
  [ ("Green Bay Packers", "Lambeau Field"); ("New York Jets", "MetLife Stadium");
    ("New York Giants", "MetLife Stadium"); ("Buffalo Bills", "Highmark Stadium");
    ("Philadelphia Eagles", "Lincoln Financial Field");
    ("New England Patriots", "Gillette Stadium");
    ("Kansas City Chiefs", "Arrowhead Stadium");
    ("Pittsburgh Steelers", "Acrisure Stadium");
    ("San Francisco 49ers", "Levi's Stadium"); ("Los Angeles Rams", "SoFi Stadium");
    ("Los Angeles Chargers", "SoFi Stadium");
    ("Minnesota Vikings", "U.S. Bank Stadium") ].

(** ** Events and the world outside the program *)

(** One element of the JSON array of the schedule.  A key that is absent or
    null reads as [None]; [teams] defaults to the empty list. *)
Record item := mkItem {
  home_team : option string;
  away_team : option string;
  commence_time : option string;
  teams : list string
}.

(** What the program takes from its libraries, its environment and the
    network.  Instants are microseconds since the epoch, UTC; a wall-clock
    time is the same count read on the local clock. *)
Record world := mkWorld {
  (* datetime.fromisoformat(s), as the instant denoted; None: ValueError *)
  fromisoformat : string -> option Z;
  (* the clock *)
  now : Z;
  (* LOCAL_TZ: the offset in force at an instant, and the offset zoneinfo
     gives a wall-clock time *)
  utcoffset_at : Z -> Z;
  utcoffset_wall : Z -> Z;
  (* dt.astimezone(LOCAL_TZ).strftime(fmt) *)
  strftime_local : string -> Z -> string;
  (* the f-string of format_pct: p*100 with one decimal and a percent sign *)
  format_pct : R -> string;
  (* the answer of the weather service for (lat, lon, when) *)
  open_meteo_temp_wind : R -> R -> Z -> option R * option R * option R;
  (* environment variables *)
  ODDS_API_KEY : option string;
  CHANNEL_ID : option string;
  (* GET .../sports/{sport_key}/odds, decoded *)
  odds_api_get : string -> result (list item)
}.

(** ** Strings *)

(** [s.replace] of every letter Z by the offset +00:00 *)
Fixpoint replace_Z (s : string) : string :=
  match s with
  | EmptyString => EmptyString
  | String c rest =>
      if Ascii.eqb c "Z"%char then "+00:00" +:+ replace_Z rest
      else String c (replace_Z rest)
  end.

(** [s.lower()] on ASCII letters. *)
Definition lower_ascii (c : ascii) : ascii :=
  let n := Ascii.N_of_ascii c in
  if ((65 <=? n) && (n <=? 90))%N then Ascii.ascii_of_N (n + 32) else c.

Fixpoint lower (s : string) : string :=
  match s with
  | EmptyString => EmptyString
  | String c rest => String (lower_ascii c) (lower rest)
  end.

(** [not s] for an optional string: [None] and the empty string. *)
Definition str_truthy (v : option string) : bool :=
  match v with
  | Some s => negb (String.eqb s EmptyString)
  | None => false
  end.

Definition NL : string := String (Ascii.ascii_of_nat 10) EmptyString.

(** ** list.sort(key=...) *)

(** The sort of Python is stable and compares keys with [<] only; the stable
    sorted arrangement of a list is unique, so it is computed here by
    insertion from the right: an element goes in front of the first element
    whose key is not smaller than its own. *)
Section Sort.
Context {A : Type} (key : A -> string).

Fixpoint insert_sorted (x : A) (l : list A) : list A :=
  match l with
  | [] => [x]
  | y :: l' =>
      if String.ltb (key y) (key x) then y :: insert_sorted x l'
      else x :: y :: l'
  end.

Fixpoint sort_by (l : list A) : list A :=
  match l with
  | [] => []
  | x :: l' => insert_sorted x (sort_by l')
  end.
End Sort.

(** ** The slate, relative to a world *)

Definition DAY : Z := 86400000000.

Definition lift {A} (r : result A) : M A := fun st => (r, st).

(** The [for] loops of the block renderers: [lines.append(line)] per
    element, stopping at the first exception. *)
Fixpoint for_lines {A} (body : A -> M string) (l : list A) (lines : list string)
    : M (list string) :=
  match l with
  | [] => mret lines
  | x :: l' => line ← body x; for_lines body l' (lines ++ [line])
  end.

(** The range of [datetime], 0001-01-01T00:00:00 to
    9999-12-31T23:59:59.999999, as instants. *)
Definition MIN_INSTANT : Z := -62135596800000000.
Definition MAX_INSTANT : Z := 253402300799999999.

Definition in_datetime_range (t : Z) : bool :=
  ((MIN_INSTANT <=? t) && (t <=? MAX_INSTANT))%Z.

(** [dt.astimezone(timezone.utc)] of a parsed timestamp: the instant stays
    the same, and the shift raises when the result is not a [datetime]. *)
Definition shift_to_utc (dt : Z) : result Z :=
  if in_datetime_range dt then Ok dt else Raise OverflowError.

Section Slate.
Variable w : world.

(** *** Utils *)

(** [local_date_bounds()]: two wall-clock times that carry [LOCAL_TZ];
    adding [timedelta(days=1)] moves the wall clock by one day. *)
Definition local_date_bounds : Z * Z :=
  let now_l := (now w + utcoffset_at w (now w))%Z in
  let start := (now_l / DAY * DAY)%Z in
  let end_ := (start + DAY)%Z in
  (start, end_).

(** [x.astimezone(timezone.utc)] for a wall-clock time carrying [LOCAL_TZ]. *)
Definition astimezone_utc (wall : Z) : Z := (wall - utcoffset_wall w wall)%Z.

(** [datetime.fromisoformat] of [iso] with Z replaced, as an instant. *)
Definition parse_commence (iso : option string) : result Z :=
  match iso with
  | None => Raise AttributeError
  | Some s =>
      match fromisoformat w (replace_Z s) with
      | Some dt => Ok dt
      | None => Raise ValueError
      end
  end.

(** [to_local_str(iso)]: every exception of the parse and of the shift
    to [LOCAL_TZ] is caught. *)
Definition to_local_str (iso : option string) : option string :=
  match parse_commence iso with
  | Ok dt =>
      if in_datetime_range dt && in_datetime_range (dt + utcoffset_at w dt)
      then Some (strftime_local w "%b %d • %H:%M" dt)
      else iso
  | Raise _ => iso
  end.

(** *** Schedule *)

Definition odds_upcoming (sport_key : string) : M (list item) :=
  if negb (str_truthy (ODDS_API_KEY w)) then mret []
  else lift (odds_api_get w sport_key).

(** *** Feature engineering *)

Definition mlb_features (game : item)
    : M (option string * option string * Z * Z * option R * option R) :=
  let home := home_team game in
  let away := away_team game in
  let iso := commence_time game in
  dt ← lift (parse_commence iso);
  let park := home ≫= dict_get TEAM_PARK in
  let pf := default 100%Z (park ≫= dict_get MLB_PARK_FACTORS) in
  let '(t, wd, p) :=
    match park ≫= dict_get STADIUM_COORDS with
    | Some (lat, lon) => open_meteo_temp_wind w lat lon dt
    | None => (None, None, None)
    end in
  mret (home, away, dt, pf, t, wd).

Definition nfl_features (game : item)
    : M (option string * option string * Z * option string * bool
         * option R * option R * option R * Z * Z) :=
  let home := home_team game in
  let away := away_team game in
  let iso := commence_time game in
  dt ← lift (parse_commence iso);
  let stadium := home ≫= dict_get TEAM_STADIUM in
  let out := default false (stadium ≫= dict_get NFL_OUTDOOR_STADIA) in
  let '(t, wd, p) :=
    match (if out then stadium ≫= dict_get STADIUM_COORDS else None) with
    | Some (lat, lon) => open_meteo_temp_wind w lat lon dt
    | None => (None, None, None)
    end in
  let rest_home := 7%Z in
  let rest_away := 7%Z in
  mret (home, away, dt, stadium, out, t, wd, p, rest_home, rest_away).

Definition ufc_features (event : item) : M (string * string * Z) :=
  let '(a, b) :=
    match teams event with
    | t0 :: t1 :: _ => (t0, t1)
    | [t0] => (t0, "Fighter B")
    | [] => ("Fighter A", "Fighter B")
    end in
  let iso := commence_time event in
  dt ← lift (parse_commence iso);
  mret (a, b, dt).

(** *** Render slates *)

Definition pick_of {T} (ph : R) (home away : T) : T :=
  if Rge_dec ph 0.5 then home else away.

Definition mlb_line (g : item) : M string :=
  '(home, away, dt, pf, t, wd) ← mlb_features g;
  ph ← mlb_predict home away pf t wd;
  let pick := pick_of ph home away in
  mret ("• " +:+ py_str (to_local_str (commence_time g)) +:+ " — "
        +:+ py_str away +:+ " @ " +:+ py_str home +:+ "  →  "
        +:+ py_str home +:+ " " +:+ format_pct w ph +:+ " | "
        +:+ py_str away +:+ " " +:+ format_pct w (1 - ph) +:+ "  → **Pick: "
        +:+ py_str pick +:+ "**").

Definition block_mlb (today_list : list item) : M string :=
  lines ← for_lines mlb_line today_list [];
  mret (match lines with
        | [] => "No MLB games today."
        | _ => "*MLB Today*" +:+ NL +:+ String.concat NL lines
        end).

Definition nfl_line (g : item) : M string :=
  '(home, away, dt, stadium, out, t, wd, p, rh, ra) ← nfl_features g;
  ph ← nfl_predict home away out t wd p rh ra;
  let pick := pick_of ph home away in
  let where_ := match stadium with
                | Some s => if String.eqb s EmptyString then EmptyString
                            else " (" +:+ s +:+ ")"
                | None => EmptyString
                end in
  mret ("• " +:+ py_str (to_local_str (commence_time g)) +:+ " — "
        +:+ py_str away +:+ " @ " +:+ py_str home +:+ where_ +:+ "  →  "
        +:+ py_str home +:+ " " +:+ format_pct w ph +:+ " | "
        +:+ py_str away +:+ " " +:+ format_pct w (1 - ph) +:+ "  → **Pick: "
        +:+ py_str pick +:+ "**").

Definition block_nfl (today_list : list item) : M string :=
  lines ← for_lines nfl_line today_list [];
  mret (match lines with
        | [] => "No NFL games today."
        | _ => "*NFL Today*" +:+ NL +:+ String.concat NL lines
        end).

Definition ufc_line (e : item) : M string :=
  '(a, b, dt) ← ufc_features e;
  pa ← ufc_predict a b;
  let pick := pick_of pa a b in
  mret ("• " +:+ py_str (to_local_str (commence_time e)) +:+ " — "
        +:+ a +:+ " vs " +:+ b +:+ "  →  "
        +:+ a +:+ " " +:+ format_pct w pa +:+ " | "
        +:+ b +:+ " " +:+ format_pct w (1 - pa) +:+ "  → **Pick: "
        +:+ pick +:+ "**").

Definition block_ufc (today_list : list item) : M string :=
  lines ← for_lines ufc_line today_list [];
  mret (match lines with
        | [] => "No UFC fights today."
        | _ => "*UFC Today*" +:+ NL +:+ String.concat NL lines
        end).

(** *** Fetch today *)

(** The loop of [filter_today]; [out] is the list built so far. *)
Fixpoint filter_loop (start_u end_u : Z) (items out : list item)
    : result (list item) :=
  match items with
  | [] => Ok out
  | it :: rest =>
      let iso := commence_time it in
      if negb (str_truthy iso) then filter_loop start_u end_u rest out
      else
        match parse_commence iso with
        | Raise e => Raise e
        | Ok parsed =>
            match shift_to_utc parsed with
            | Raise e => Raise e
            | Ok dt =>
                if ((start_u <=? dt) && (dt <? end_u))%Z
                then filter_loop start_u end_u rest (out ++ [it])
                else filter_loop start_u end_u rest out
            end
        end
  end.

(** The key of the sort: the text of [commence_time], the empty string
    when the field is absent. *)
Definition sort_key (x : item) : string := default EmptyString (commence_time x).

Definition filter_today (items : list item) : result (list item) :=
  let '(start_l, end_l) := local_date_bounds in
  let start_u := astimezone_utc start_l in
  let end_u := astimezone_utc end_l in
  match filter_loop start_u end_u items [] with
  | Ok out => Ok (sort_by sort_key out)
  | Raise e => Raise e
  end.

Definition get_today_by_league (lg : string) : M (list item) :=
  match dict_get SPORT_KEYS lg with
  | None => raise KeyError
  | Some key =>
      upcoming ← (if str_truthy (ODDS_API_KEY w) then odds_upcoming key else mret []);
      lift (filter_today upcoming)
  end.

(** *** Telegram commands and the daily post *)

(** [reply_text] and [send_message] *)
Definition send (msg : string) : M unit := fun st => (Ok tt, push_chat st msg).

Fixpoint send_all (msgs : list string) : M unit :=
  match msgs with
  | [] => mret tt
  | b :: rest => send b;; send_all rest
  end.

Definition when : string := strftime_local w "%b %d" (now w).

Definition block_if_any (block : list item -> M string) (l : list item)
    : M (list string) :=
  match l with
  | [] => mret []
  | _ => b ← block l; mret [b]
  end.

(** [cmd_today] with [context.args = args] *)
Definition cmd_today (args : list string) : M unit :=
  let args := lower <$> args in
  if negb (str_truthy (ODDS_API_KEY w)) then
    send "Set ODDS_API_KEY env var to fetch schedules."
  else
    match args with
    | [] => send "Usage: /today all|mlb|nfl|ufc"
    | a0 :: _ =>
        blocks ←
          (if String.eqb a0 "all" then
             mlb ← get_today_by_league "mlb";
             nfl ← get_today_by_league "nfl";
             ufc ← get_today_by_league "ufc";
             b1 ← block_if_any block_mlb mlb;
             b2 ← block_if_any block_nfl nfl;
             b3 ← block_if_any block_ufc ufc;
             mret (Some (b1 ++ b2 ++ b3))
           else
             match dict_get SPORT_KEYS a0 with
             | Some _ =>
                 items ← get_today_by_league a0;
                 if String.eqb a0 "mlb" then b ← block_mlb items; mret (Some [b])
                 else if String.eqb a0 "nfl" then b ← block_nfl items; mret (Some [b])
                 else if String.eqb a0 "ufc" then b ← block_ufc items; mret (Some [b])
                 else mret (Some [])
             | None => send "Use: all|mlb|nfl|ufc";; mret None
             end);
        match blocks with
        | None => mret tt
        | Some [] => send ("No events today (" +:+ when +:+ ").")
        | Some blocks => send_all blocks
        end
    end.

Fixpoint post_leagues (lgs : list string) : M unit :=
  match lgs with
  | [] => mret tt
  | lg :: rest =>
      items ← get_today_by_league lg;
      text ← (if String.eqb lg "mlb" then block_mlb items
              else if String.eqb lg "nfl" then block_nfl items
              else block_ufc items);
      send text;;
      post_leagues rest
  end.

Definition post_today : M unit :=
  if negb (str_truthy (CHANNEL_ID w)) then mret tt
  else if negb (str_truthy (ODDS_API_KEY w)) then
    send "Set ODDS_API_KEY to fetch schedules."
  else
    send ("📅 Today’s slate (" +:+ when +:+ ")");;
    post_leagues ["mlb"; "nfl"; "ufc"].
End Slate.

(** ** A concrete world for worked examples *)

(** The timestamps the schedule service sends have the shape
    [YYYY-MM-DDTHH:MM:SS] followed by [Z] or a numeric offset.
    [iso_instant] reads exactly the strings [YYYY-MM-DDTHH:MM:SS+HH:MM]
    (or with [-]) that name a valid date and time, and rejects every other
    string.  [datetime.fromisoformat] accepts these strings with this
    meaning in every Python version, and accepts further shapes besides;
    years are kept within 0002..9998 so that the shift to UTC stays inside
    the range of [datetime]. *)
Module Iso.
Definition digit (c : ascii) : option Z :=
  let n := Z.of_N (N_of_ascii c) in
  if ((48 <=? n) && (n <=? 57))%Z then Some (n - 48)%Z else None.

Fixpoint number (cs : list ascii) (acc : Z) : option Z :=
  match cs with
  | [] => Some acc
  | c :: cs' => d ← digit c; number cs' (10 * acc + d)%Z
  end.

Definition is_leap (y : Z) : bool :=
  ((y mod 4 =? 0) && (negb (y mod 100 =? 0) || (y mod 400 =? 0)))%Z.

Definition days_in_month (y m : Z) : Z :=
  if (m =? 2)%Z then (if is_leap y then 29 else 28)%Z
  else if ((m =? 4) || (m =? 6) || (m =? 9) || (m =? 11))%Z then 30%Z
  else 31%Z.

(** Days from 1970-01-01 to the civil date [y-m-d]. *)
Definition days_from_civil (y m d : Z) : Z :=
  let y' := (if m <=? 2 then y - 1 else y)%Z in
  let era := (y' / 400)%Z in
  let yoe := (y' - era * 400)%Z in
  let mp := ((m + 9) mod 12)%Z in
  let doy := ((153 * mp + 2) / 5 + d - 1)%Z in
  let doe := (yoe * 365 + yoe / 4 - yoe / 100 + doy)%Z in
  (era * 146097 + doe - 719468)%Z.

Definition is_char (c : ascii) (s : string) : bool :=
  String.eqb (String c EmptyString) s.

Definition iso_instant (s : string) : option Z :=
  match String.list_ascii_of_string s with
  | [y1; y2; y3; y4; c1; m1; m2; c2; d1; d2; sep; h1; h2; c3; n1; n2; c4;
     s1; s2; sg; o1; o2; c5; o3; o4] =>
      if negb (is_char c1 "-" && is_char c2 "-" && is_char sep "T"
               && is_char c3 ":" && is_char c4 ":" && is_char c5 ":"
               && (is_char sg "+" || is_char sg "-"))
      then None
      else
        y ← number [y1; y2; y3; y4] 0;
        m ← number [m1; m2] 0;
        d ← number [d1; d2] 0;
        hh ← number [h1; h2] 0;
        mi ← number [n1; n2] 0;
        ss ← number [s1; s2] 0;
        oh ← number [o1; o2] 0;
        om ← number [o3; o4] 0;
        if ((2 <=? y) && (y <=? 9998) && (1 <=? m) && (m <=? 12)
            && (1 <=? d) && (d <=? days_in_month y m)
            && (hh <=? 23) && (mi <=? 59) && (ss <=? 59)
            && (oh <=? 23) && (om <=? 59))%Z
        then
          let off := ((if is_char sg "-" then -1 else 1) * (oh * 3600 + om * 60))%Z in
          Some ((days_from_civil y m d * 86400 + hh * 3600 + mi * 60 + ss - off)
                * 1000000)%Z
        else None
  | _ => None
  end.
End Iso.

(** A world with the parser above, the clock at 2024-01-01T12:00:00Z, a
    time zone fixed at UTC+01:00, no weather service, and texts of dates
    and percentages left as the bare format string and a dash.  [key] and
    [schedule] are the API key and the answers of the schedule service. *)
Definition test_world (key : option string) (schedule : string -> result (list item))
    : world :=
  {| fromisoformat := Iso.iso_instant;
     now := 1704110400000000;
     utcoffset_at := fun _ => 3600000000%Z;
     utcoffset_wall := fun _ => 3600000000%Z;
     strftime_local := fun fmt _ => fmt;
     format_pct := fun _ => "-";
     open_meteo_temp_wind := fun _ _ _ => (None, None, None);
     ODDS_API_KEY := key;
     CHANNEL_ID := Some "-1001234567890";
     odds_api_get := schedule |}.

Definition event_at (iso : string) : item :=
  mkItem (Some "Home") (Some "Away") (Some iso) [].

(** ** Definitions used to state the properties *)

(** The state [elo_get key] leaves behind. *)
Definition touch (key : string) (st : state) : state :=
  set_elo st (<[key := rating st key]> (elo st)).

(** A state in which the result game-1 of mlb is recorded as settled. *)
Definition settled_state : state :=
  set_results fresh_state [("mlb", "game-1", 0%Z)].

(** The three weather bonuses as the specification words them: +5 for wind
    of at least 32 km/h, +3 for a temperature of at most 5 degrees, +2 for
    a precipitation probability of at least 60 percent; an absent value
    gives no bonus. *)
Definition spec_wind_bonus (wind_kmh : option R) : R :=
  match wind_kmh with
  | Some x => if Rle_dec 32 x then 5%R else 0%R
  | None => 0%R
  end.

Definition spec_temp_bonus (temp_c : option R) : R :=
  match temp_c with
  | Some x => if Rle_dec x 5 then 3%R else 0%R
  | None => 0%R
  end.

Definition spec_precip_bonus (precip_prob : option R) : R :=
  match precip_prob with
  | Some x => if Rle_dec 60 x then 2%R else 0%R
  | None => 0%R
  end.

Definition spec_weather (outdoor : bool) (temp_c wind_kmh precip_prob : option R) : R :=
  if outdoor
  then (spec_wind_bonus wind_kmh + spec_temp_bonus temp_c + spec_precip_bonus precip_prob)%R
  else 0%R.


(** The instant an event starts at: the instant its timestamp denotes
    (with Z read as the offset +00:00), when the timestamp is present, not
    empty, parses and denotes an instant within the range of
    [datetime]. *)
Definition start_instant (w : world) (it : item) : option Z :=
  match commence_time it with
  | Some iso =>
      if String.eqb iso EmptyString then None
      else match fromisoformat w (replace_Z iso) with
           | Some dt => if in_datetime_range dt then Some dt else None
           | None => None
           end
  | None => None
  end.

(** An event the filter can read: its timestamp is missing or empty, or it
    parses. *)
Definition readable (w : world) (it : item) : Prop :=
  str_truthy (commence_time it) = true -> is_Some (start_instant w it).

(** The two instants [filter_today] compares with. *)
Definition today_start (w : world) : Z := astimezone_utc w (local_date_bounds w).1.
Definition today_end (w : world) : Z := astimezone_utc w (local_date_bounds w).2.

Definition starts_within (w : world) (s e : Z) (it : item) : bool :=
  match start_instant w it with
  | Some dt => ((s <=? dt) && (dt <? e))%Z
  | None => false
  end.

(** The events of today, in input order. *)
Definition todays (w : world) (items : list item) : list item :=
  List.filter (starts_within w (today_start w) (today_end w)) items.

(** Ascending order of the sort keys, as [<] on strings sees it. *)
Definition key_le {A} (key : A -> string) (x y : A) : Prop :=
  String.ltb (key y) (key x) = false.

Definition has_key {A} (key : A -> string) (k : string) (x : A) : bool :=
  String.eqb (key x) k.

(** Ascending order of the instants denoted. *)
Definition instant_le (w : world) (x y : item) : Prop :=
  match start_instant w x, start_instant w y with
  | Some dx, Some dy => (dx <= dy)%Z
  | _, _ => False
  end.

(** The test world without an API key and with an empty schedule. *)
Definition quiet_world : world := test_world None (fun _ => Ok []).

(** Events around the bounds of the local day 2024-01-01 at UTC+01:00:
    local 00:00:00, local 23:59:59, the next local 00:00:00, and one event
    without a timestamp. *)
Definition boundary_events : list item :=
  [ event_at "2024-01-01T23:00:00Z"; event_at "2024-01-01T22:59:59Z";
    mkItem (Some "Home") (Some "Away") None [];
    event_at "2023-12-31T23:00:00Z" ].

(** Two events of the same day written with different offsets: the first
    starts at 08:00 UTC, the second at 09:00 UTC. *)
Definition mixed_offsets : list item :=
  [ event_at "2024-01-01T10:00:00+02:00"; event_at "2024-01-01T09:00:00+00:00" ].

(** One instant written in two ways. *)
Definition same_instant : list item :=
  [ event_at "2024-01-01T09:00:00Z"; event_at "2024-01-01T09:00:00+00:00" ].

(** The three leagues, the renderer of each and its text for an empty
    day. *)
Definition leagues : list string := ["mlb"; "nfl"; "ufc"].

Definition block_of (w : world) (lg : string) : list item -> M string :=
  if String.eqb lg "mlb" then block_mlb w
  else if String.eqb lg "nfl" then block_nfl w
  else block_ufc w.

Definition no_events_text (lg : string) : string :=
  if String.eqb lg "mlb" then "No MLB games today."
  else if String.eqb lg "nfl" then "No NFL games today."
  else "No UFC fights today.".

(** The test world with an API key and a schedule service that answers
    with an empty list for every league. *)
Definition idle_world : world := test_world (Some "key") (fun _ => Ok []).

(** ** Further definitions used to state properties *)

(** [logistic(x)] of the source: [1.0/(1.0+math.exp(-x))]. *)
Definition logistic (x : R) : R := (1.0 / (1.0 + exp (- x)))%R.

(** The additive home-side terms of [mlb_predict] beyond the constant 30. *)
Definition mlb_park_term (pf : Z) : R := (IZR (pf - 100) * 0.2)%R.

Definition mlb_temp_term (temp_c : option R) : R :=
  match temp_c with
  | Some t => ((t - 20) * 0.5)%R
  | None => 0%R
  end.

Definition mlb_wind_term (wind_kmh : option R) : R :=
  match wind_kmh with
  | Some x => if Rlt_dec 30 x then 3%R else 0%R
  | None => 0%R
  end.

(** [st'] continues [st]: the results table is the same, every stored
    rating is still stored with the same value, every key stands for the
    same rating, and the chat has only grown at its end. *)
Definition extends (st st' : state) : Prop :=
  results st' = results st
  /\ (forall key r, elo st !! key = Some r -> elo st' !! key = Some r)
  /\ (forall key, rating st' key = rating st key)
  /\ (exists more, chat st' = chat st ++ more).

(** A computation that only ever continues the state it is given. *)
Definition grows {A} (c : M A) : Prop := forall st, extends st (c st).2.

(** An event whose timestamp is present and parses, as the feature
    functions need it. *)
Definition parses (w : world) (it : item) : Prop :=
  exists dt, parse_commence w (commence_time it) = Ok dt.

(** The first line of the block of a league, chosen as [block_of] chooses
    the renderer. *)
Definition header_text (lg : string) : string :=
  if String.eqb lg "mlb" then "*MLB Today*"
  else if String.eqb lg "nfl" then "*NFL Today*"
  else "*UFC Today*".

(** The test world with an API key and a schedule service that fails. *)
Definition failing_world : world := test_world (Some "key") (fun _ => Raise HTTPError).

(** A computation that sends nothing: the chat is the same afterwards. *)
Definition silent {A} (c : M A) : Prop := forall st, chat (c st).2 = chat st.

(** The renderer of one line of a league, chosen as [block_of] chooses
    the renderer of the block, and the text it gives for an event at the
    ratings of a state. *)
Definition line_of (w : world) (lg : string) : item -> M string :=
  if String.eqb lg "mlb" then mlb_line w
  else if String.eqb lg "nfl" then nfl_line w
  else ufc_line w.

Definition line_text (w : world) (lg : string) (st : state) (g : item) : string :=
  match (line_of w lg g st).1 with
  | Ok text => text
  | Raise _ => EmptyString
  end.

(** One hour, in microseconds. *)
Definition HOUR : Z := 3600000000.

(** An event the renderers can take: its timestamp parses, and the
    instant and the instant one hour later, the two hour stamps of the
    weather request, lie within the range of [datetime]. *)
Definition renderable (w : world) (it : item) : Prop :=
  exists dt, parse_commence w (commence_time it) = Ok dt
             /\ in_datetime_range dt = true
             /\ in_datetime_range (dt + HOUR) = true.

(** The failure of an event in the filter: its timestamp is present and
    either does not parse, which is a [ValueError], or parses to an
    instant outside the range of [datetime], which is an
    [OverflowError] of the shift to UTC. *)
Definition fails_with (w : world) (it : item) (x : exn) : Prop :=
  str_truthy (commence_time it) = true
  /\ ((parse_commence w (commence_time it) = Raise ValueError /\ x = ValueError)
      \/ (exists dt, parse_commence w (commence_time it) = Ok dt
                     /\ in_datetime_range dt = false /\ x = OverflowError)).

(** A parser for worked examples that reads every string as one instant
    just below the range of [datetime]. *)
Definition early_world : world :=
  {| fromisoformat := fun _ => Some (MIN_INSTANT - 1)%Z;
     now := 1704110400000000;
     utcoffset_at := fun _ => 3600000000%Z;
     utcoffset_wall := fun _ => 3600000000%Z;
     strftime_local := fun fmt _ => fmt;
     format_pct := fun _ => "-";
     open_meteo_temp_wind := fun _ _ _ => (None, None, None);
     ODDS_API_KEY := None;
     CHANNEL_ID := None;
     odds_api_get := fun _ => Ok [] |}.
(** * Properties *)

(** ** Powers of ten and the logistic transform *)

Lemma pow10_pos (x : R) : (0 < pow10 x)%R.
Proof. unfold pow10, Rpower. apply exp_pos. Qed.

Lemma pow10_opp (x : R) : (pow10 (- x) = / pow10 x)%R.
Proof. unfold pow10. apply Rpower_Ropp. Qed.

Lemma pow10_0 : pow10 0 = 1%R.
Proof. unfold pow10. apply Rpower_O. lra. Qed.

(** [1/(1+u) + 1/(1+1/u) = 1] for a positive [u]. *)
Lemma logistic_pair (u : R) : (0 < u)%R -> (1 / (1 + u) + 1 / (1 + / u) = 1)%R.
Proof. intros Hu. field. lra. Qed.

Lemma win_prob_lt_1 (d : R) : (win_prob d < 1)%R.
Proof.
  unfold win_prob. pose proof (pow10_pos (- d / 400)) as Hp.
  apply (Rmult_lt_reg_r (1.0 + pow10 (- d / 400))); [lra |].
  unfold Rdiv. rewrite Rmult_assoc, Rinv_l by lra. lra.
Qed.

Lemma win_prob_pos (d : R) : (0 < win_prob d)%R.
Proof.
  unfold win_prob. pose proof (pow10_pos (- d / 400)) as Hp.
  apply Rdiv_lt_0_compat; lra.
Qed.

(** The expected score [Ea] of [elo_update] is the transform of [Ra - Rb]. *)
Lemma expected_is_win_prob (Ra Rb : R) :
  (1.0 / (1 + pow10 ((Rb - Ra) / 400)))%R = win_prob (Ra - Rb).
Proof.
  unfold win_prob.
  replace (- (Ra - Rb) / 400)%R with ((Rb - Ra) / 400)%R by lra.
  f_equal. lra.
Qed.

(** ** The rating store *)

Lemma set_elo_same (st : state) : set_elo st (elo st) = st.
Proof. by destruct st. Qed.

Lemma elo_get_run (key : string) (st : state) :
  elo_get key BASE st = (Ok (rating st key), touch key st).
Proof.
  unfold elo_get, touch, rating.
  destruct (elo st !! key) as [r|] eqn:E; simpl; [| done].
  by rewrite insert_id, set_elo_same.
Qed.

Lemma rating_touch (key key' : string) (st : state) :
  rating (touch key st) key' = rating st key'.
Proof.
  unfold touch, rating at 1 3. simpl.
  destruct (decide (key = key')) as [->|Hne].
  - rewrite lookup_insert_eq. unfold rating. by destruct (elo st !! key').
  - by rewrite lookup_insert_ne.
Qed.

Lemma touch_known (key : string) (st : state) (r : R) :
  elo st !! key = Some r -> touch key st = st.
Proof.
  intros E. unfold touch, rating. rewrite E. simpl.
  by rewrite insert_id, set_elo_same.
Qed.

Lemma results_touch (key : string) (st : state) : results (touch key st) = results st.
Proof. done. Qed.

Lemma chat_touch (key : string) (st : state) : chat (touch key st) = chat st.
Proof. done. Qed.

(** [elo_update] in one step: both computed ratings are written over the
    store, the second write last. *)
Lemma elo_update_run (a_key b_key : string) (a_score b_score : Z) (k : R) (st : state) :
  elo_update a_key b_key a_score b_score k st =
  let '(Ra2, Rb2) :=
    elo_new_ratings (rating st a_key) (rating st b_key) a_score b_score k in
  (Ok tt, set_elo st (<[b_key := Rb2]> (<[a_key := Ra2]> (elo st)))).
Proof.
  unfold elo_update, mbind, M_bind.
  rewrite elo_get_run, elo_get_run, rating_touch.
  destruct (elo_new_ratings _ _ _ _ _) as [Ra2 Rb2]. simpl.
  unfold elo_set, set_elo. simpl. do 2 f_equal.
  apply map_eq. intros i.
  destruct (decide (b_key = i)) as [->|Hb]; [by rewrite !lookup_insert_eq |].
  rewrite !(lookup_insert_ne _ b_key) by done.
  destruct (decide (a_key = i)) as [->|Ha]; [by rewrite !lookup_insert_eq |].
  by rewrite !lookup_insert_ne by done.
Qed.

Lemma elo_new_ratings_sum (Ra Rb : R) (a_score b_score : Z) (k : R) :
  let '(Ra2, Rb2) := elo_new_ratings Ra Rb a_score b_score k in
  (Ra2 + Rb2 = Ra + Rb)%R.
Proof.
  unfold elo_new_ratings.
  replace ((Ra - Rb) / 400)%R with (- ((Rb - Ra) / 400))%R by lra.
  rewrite pow10_opp.
  pose proof (logistic_pair _ (pow10_pos ((Rb - Ra) / 400))) as H.
  set (Ea := (1.0 / (1 + pow10 ((Rb - Ra) / 400)))%R) in *.
  set (Eb := (1.0 / (1 + / pow10 ((Rb - Ra) / 400)))%R) in *.
  assert (Ea + Eb = 1)%R as HE by (subst Ea Eb; lra).
  nra.
Qed.

Lemma rating_after_update_b (st : state) (a_key b_key : string) (Ra2 Rb2 : R) :
  rating (set_elo st (<[b_key := Rb2]> (<[a_key := Ra2]> (elo st)))) b_key = Rb2.
Proof. unfold rating. simpl. by rewrite lookup_insert_eq. Qed.

Lemma rating_after_update_a (st : state) (a_key b_key : string) (Ra2 Rb2 : R) :
  a_key ≠ b_key ->
  rating (set_elo st (<[b_key := Rb2]> (<[a_key := Ra2]> (elo st)))) a_key = Ra2.
Proof.
  intros Hne. unfold rating. simpl.
  by rewrite lookup_insert_ne, lookup_insert_eq.
Qed.

(** The two new ratings after a win of [a], by the transform. *)
Lemma elo_new_ratings_win (Ra Rb : R) (a_score b_score : Z) (k : R) :
  (b_score < a_score)%Z ->
  elo_new_ratings Ra Rb a_score b_score k =
  ((Ra + k * (1.0 - win_prob (Ra - Rb)))%R,
   (Rb + k * (1.0 - 1.0 - win_prob (Rb - Ra)))%R).
Proof.
  intros Hlt. unfold elo_new_ratings, actual_score.
  rewrite (proj2 (Z.ltb_lt _ _) Hlt).
  by rewrite !expected_is_win_prob.
Qed.

(** Scenario 1 of the specification: 1500 against 1500, [a] wins 5-2 with
    [k = 20]. *)
Example elo_new_ratings_scenario1 :
  elo_new_ratings 1500 1500 5 2 20.0 = (1510%R, 1490%R).
Proof.
  rewrite elo_new_ratings_win by lia. unfold win_prob.
  replace (- (1500 - 1500) / 400)%R with 0%R by lra.
  rewrite pow10_0. f_equal; lra.
Qed.

(** C8: for a key never seen before, [elo_get] returns exactly 1500.0 and
    inserts that rating, touching no other key; a second [elo_get] of the
    key returns the same value and leaves the store as it is.  The
    result is a value in both calls, never an exception. *)
Theorem elo_get_default_init (key : string) (st : state) :
  elo st !! key = None ->
  let st1 := set_elo st (<[key := 1500.0%R]> (elo st)) in
  elo_get key BASE st = (Ok 1500.0%R, st1)
  /\ elo st1 !! key = Some 1500.0%R
  /\ (forall key', key' ≠ key -> elo st1 !! key' = elo st !! key')
  /\ elo_get key BASE st1 = (Ok 1500.0%R, st1).
Proof.
  intros Hnew st1. subst st1. repeat split.
  - unfold elo_get. by rewrite Hnew.
  - simpl. by rewrite lookup_insert_eq.
  - intros key' Hne. simpl. by rewrite lookup_insert_ne.
  - unfold elo_get. simpl. by rewrite lookup_insert_eq.
Qed.

Lemma elo_get_default_init_fresh :
  let st1 := set_elo fresh_state (<["MLB:Unknown Team" := 1500.0%R]> (elo fresh_state)) in
  elo_get "MLB:Unknown Team" BASE fresh_state = (Ok 1500.0%R, st1)
  /\ elo st1 !! "MLB:Unknown Team" = Some 1500.0%R
  /\ (forall key', key' ≠ "MLB:Unknown Team" -> elo st1 !! key' = elo fresh_state !! key')
  /\ elo_get "MLB:Unknown Team" BASE st1 = (Ok 1500.0%R, st1).
Proof. apply (elo_get_default_init "MLB:Unknown Team" fresh_state). reflexivity. Defined.

(** C2: one [elo_update] on two distinct competitors conserves the sum of
    their ratings: the update returns normally, the ratings it leaves for
    the two keys are the two values computed from the ratings read, and
    their sum equals the sum before, for all scores and every [k]. *)
Theorem elo_update_zero_sum (a_key b_key : string) (a_score b_score : Z) (k : R)
    (st : state) :
  a_key ≠ b_key ->
  exists st',
    elo_update a_key b_key a_score b_score k st = (Ok tt, st')
    /\ (rating st' a_key, rating st' b_key)
       = elo_new_ratings (rating st a_key) (rating st b_key) a_score b_score k
    /\ (rating st' a_key + rating st' b_key = rating st a_key + rating st b_key)%R.
Proof.
  intros Hne. rewrite elo_update_run.
  pose proof (elo_new_ratings_sum (rating st a_key) (rating st b_key) a_score b_score k) as Hsum.
  destruct (elo_new_ratings _ _ _ _ _) as [Ra2 Rb2].
  eexists. split; [reflexivity |].
  rewrite rating_after_update_b, rating_after_update_a by done.
  by split.
Qed.

Lemma elo_update_zero_sum_example :
  exists st',
    elo_update "MLB:Boston Red Sox" "MLB:New York Yankees" 5 2 20.0 fresh_state = (Ok tt, st')
    /\ (rating st' "MLB:Boston Red Sox", rating st' "MLB:New York Yankees")
       = elo_new_ratings (rating fresh_state "MLB:Boston Red Sox")
           (rating fresh_state "MLB:New York Yankees") 5 2 20.0
    /\ (rating st' "MLB:Boston Red Sox" + rating st' "MLB:New York Yankees"
        = rating fresh_state "MLB:Boston Red Sox"
          + rating fresh_state "MLB:New York Yankees")%R.
Proof.
  apply (elo_update_zero_sum "MLB:Boston Red Sox" "MLB:New York Yankees" 5 2 20.0 fresh_state).
  discriminate.
Defined.

(** [elo_update] on a state where a result is already recorded still
    moves the ratings (1500/1500 to 1510/1490), and the same call made a
    second time moves them again. *)
Lemma elo_update_repeat_changes :
  let st1 := (elo_update "MLB:A" "MLB:B" 5 2 20.0 settled_state).2 in
  let st2 := (elo_update "MLB:A" "MLB:B" 5 2 20.0 st1).2 in
  results st1 = [("mlb", "game-1", 0%Z)]
  /\ rating settled_state "MLB:A" = 1500%R
  /\ rating st1 "MLB:A" = 1510%R /\ rating st1 "MLB:B" = 1490%R
  /\ rating st2 "MLB:A" ≠ rating st1 "MLB:A"
  /\ rating st2 "MLB:B" ≠ rating st1 "MLB:B".
Proof.
  assert (Hne : "MLB:A" ≠ "MLB:B") by discriminate.
  assert (H0 : forall key, rating settled_state key = 1500%R).
  { intros key. unfold rating, settled_state. simpl.
    rewrite lookup_empty. simpl. unfold BASE. lra. }
  cbv zeta. rewrite (elo_update_run _ _ _ _ _ settled_state), !H0.
  rewrite elo_new_ratings_scenario1. cbn [snd].
  set (st1 := set_elo settled_state _).
  assert (HA : rating st1 "MLB:A" = 1510%R)
    by (subst st1; by rewrite rating_after_update_a).
  assert (HB : rating st1 "MLB:B" = 1490%R)
    by (subst st1; by rewrite rating_after_update_b).
  rewrite (elo_update_run _ _ _ _ _ st1), HA, HB.
  rewrite elo_new_ratings_win by lia. cbn [snd].
  rewrite rating_after_update_a, rating_after_update_b by done.
  pose proof (win_prob_lt_1 (1510 - 1490)) as Hlt.
  pose proof (win_prob_pos (1490 - 1510)) as Hpos.
  repeat split; try done; lra.
Qed.

(** C1 (amended): [elo_update] has no settled-result guard.  For two
    distinct competitors every call returns normally, leaves the results
    table as it was and writes the same ratings whatever that table
    holds; the ratings it leaves are the Elo update of the ratings stored
    before the call, and a second call with the same arguments is the
    same update applied again, to the ratings the first call left. *)
Theorem elo_update_unguarded (a_key b_key : string) (a_score b_score : Z) (k : R)
    (st : state) :
  a_key ≠ b_key ->
  exists st1 st2,
    elo_update a_key b_key a_score b_score k st = (Ok tt, st1)
    /\ elo_update a_key b_key a_score b_score k st1 = (Ok tt, st2)
    /\ results st1 = results st /\ results st2 = results st
    /\ (forall res,
          elo (elo_update a_key b_key a_score b_score k (set_results st res)).2
          = elo st1)
    /\ (rating st1 a_key, rating st1 b_key)
       = elo_new_ratings (rating st a_key) (rating st b_key) a_score b_score k
    /\ (rating st2 a_key, rating st2 b_key)
       = elo_new_ratings (rating st1 a_key) (rating st1 b_key) a_score b_score k.
Proof.
  intros Hne.
  assert (Hrun : forall s,
            exists s', elo_update a_key b_key a_score b_score k s = (Ok tt, s')
                       /\ results s' = results s
                       /\ (rating s' a_key, rating s' b_key)
                          = elo_new_ratings (rating s a_key) (rating s b_key)
                              a_score b_score k).
  { intros s. rewrite elo_update_run.
    destruct (elo_new_ratings _ _ _ _ _) as [Ra2 Rb2].
    eexists. split; [reflexivity |]. split; [done |].
    by rewrite rating_after_update_a, rating_after_update_b. }
  destruct (Hrun st) as (st1 & H1 & Hr1 & Hn1).
  destruct (Hrun st1) as (st2 & H2 & Hr2 & Hn2).
  exists st1, st2. repeat split; try done; try congruence.
  intros res. rewrite elo_update_run in H1 |- *.
  change (rating (set_results st res)) with (rating st).
  destruct (elo_new_ratings _ _ _ _ _) as [Ra2 Rb2]. by injection H1 as <-.
Qed.

Lemma elo_update_unguarded_example :
  exists st1 st2,
    elo_update "MLB:A" "MLB:B" 5 2 20.0 settled_state = (Ok tt, st1)
    /\ elo_update "MLB:A" "MLB:B" 5 2 20.0 st1 = (Ok tt, st2)
    /\ results st1 = results settled_state /\ results st2 = results settled_state
    /\ (forall res,
          elo (elo_update "MLB:A" "MLB:B" 5 2 20.0 (set_results settled_state res)).2
          = elo st1)
    /\ (rating st1 "MLB:A", rating st1 "MLB:B")
       = elo_new_ratings (rating settled_state "MLB:A") (rating settled_state "MLB:B")
           5 2 20.0
    /\ (rating st2 "MLB:A", rating st2 "MLB:B")
       = elo_new_ratings (rating st1 "MLB:A") (rating st1 "MLB:B") 5 2 20.0.
Proof.
  apply (elo_update_unguarded "MLB:A" "MLB:B" 5 2 20.0 settled_state).
  discriminate.
Defined.

Lemma win_prob_opp (d : R) : (win_prob d + win_prob (- d) = 1)%R.
Proof.
  unfold win_prob.
  replace (- - d / 400)%R with (- (- d / 400))%R by lra.
  rewrite pow10_opp.
  pose proof (logistic_pair _ (pow10_pos (- d / 400))) as H.
  replace (1.0 + pow10 (- d / 400))%R with (1 + pow10 (- d / 400))%R by lra.
  replace (1.0 + / pow10 (- d / 400))%R with (1 + / pow10 (- d / 400))%R by lra.
  lra.
Qed.

Lemma win_prob_0 : win_prob 0 = 0.5%R.
Proof.
  unfold win_prob. replace (- 0 / 400)%R with 0%R by lra.
  rewrite pow10_0. lra.
Qed.

(** C3: the transform at the end of [mlb_predict], [nfl_predict] and
    [ufc_predict] satisfies [p(d) + p(-d) = 1] for every differential [d],
    and [p(0) = 0.5]. *)
Theorem win_prob_symmetry (d : R) :
  (win_prob d + win_prob (- d) = 1)%R /\ win_prob 0 = 0.5%R.
Proof. split; [apply win_prob_opp | apply win_prob_0]. Qed.

(** [ufc_predict] is the transform of the difference of the two ratings,
    so the two orders of a pairing get complementary probabilities. *)
Lemma ufc_predict_run (fa fb : string) (st : state) :
  ufc_predict fa fb st =
  (Ok (win_prob (rating st ("UFC:" +:+ fa) - rating st ("UFC:" +:+ fb))),
   touch ("UFC:" +:+ fb) (touch ("UFC:" +:+ fa) st)).
Proof.
  unfold ufc_predict, mbind, M_bind.
  by rewrite elo_get_run, elo_get_run, rating_touch.
Qed.

Lemma ufc_predict_swap (fa fb : string) (st : state) :
  exists p q st1 st2,
    ufc_predict fa fb st = (Ok p, st1) /\ ufc_predict fb fa st = (Ok q, st2)
    /\ (p + q = 1)%R.
Proof.
  do 4 eexists. rewrite !ufc_predict_run. repeat split.
  set (d := (rating st ("UFC:" +:+ fa) - rating st ("UFC:" +:+ fb))%R).
  replace (rating st ("UFC:" +:+ fb) - rating st ("UFC:" +:+ fa))%R with (- d)%R
    by (subst d; lra).
  apply win_prob_opp.
Qed.

(** ** Gridiron-football adjustment *)

Ltac close_prob :=
  first [ exfalso; lra | do 3 f_equal; lra ].

Lemma nfl_predict_run (home away : option string) (outdoor : bool)
    (temp_c wind_kmh precip_prob : option R) (rest_home rest_away : Z) (st : state) :
  let hk := "NFL:" +:+ py_str home in
  let ak := "NFL:" +:+ py_str away in
  nfl_predict home away outdoor temp_c wind_kmh precip_prob rest_home rest_away st =
  (Ok (win_prob (rating st hk + 55 + IZR (rest_home - rest_away) * 1.5
                 + spec_weather outdoor temp_c wind_kmh precip_prob
                 - rating st ak)),
   touch ak (touch hk st)).
Proof.
  intros hk ak. unfold nfl_predict, mbind, M_bind.
  rewrite elo_get_run. fold hk. rewrite elo_get_run. fold ak.
  rewrite rating_touch. unfold ret, mret, M_ret, spec_weather.
  destruct outdoor; [| close_prob].
  unfold spec_wind_bonus, spec_temp_bonus, spec_precip_bonus, truthy.
  destruct wind_kmh as [wd|], temp_c as [t|], precip_prob as [p|];
    repeat match goal with
           | |- context [Req_dec_T ?x ?y] => destruct (Req_dec_T x y)
           | |- context [Rge_dec ?x ?y] => destruct (Rge_dec x y)
           | |- context [Rle_dec ?x ?y] => destruct (Rle_dec x y)
           end;
    close_prob.
Qed.

(** C7: at a venue that is not flagged outdoor the prediction of
    [nfl_predict] is the one computed with all weather absent, whatever
    temperature, wind and precipitation are reported; in general the
    home rating gets 55, the rest term and, at an outdoor venue only, the
    sum of the three bonuses, each decided by its own condition
    (+5 wind >= 32, +3 temperature <= 5, +2 precipitation >= 60). *)
Theorem nfl_weather_terms (home away : option string) (outdoor : bool)
    (temp_c wind_kmh precip_prob : option R) (rest_home rest_away : Z) (st : state) :
  nfl_predict home away false temp_c wind_kmh precip_prob rest_home rest_away st
  = nfl_predict home away false None None None rest_home rest_away st
  /\ nfl_predict home away outdoor temp_c wind_kmh precip_prob rest_home rest_away st
     = (Ok (win_prob
              (rating st ("NFL:" +:+ py_str home) + 55
               + IZR (rest_home - rest_away) * 1.5
               + (if outdoor
                  then spec_wind_bonus wind_kmh + spec_temp_bonus temp_c
                       + spec_precip_bonus precip_prob
                  else 0)
               - rating st ("NFL:" +:+ py_str away))),
        touch ("NFL:" +:+ py_str away) (touch ("NFL:" +:+ py_str home) st)).
Proof.
  split.
  - by rewrite !nfl_predict_run.
  - apply nfl_predict_run.
Qed.

(** Scenario 3 of the specification: an indoor venue with a reported wind
    of 50 km/h, against the same event at an outdoor venue. *)
Example nfl_indoor_wind (st : state) :
  nfl_predict (Some "Los Angeles Rams") (Some "Seattle Seahawks") false None (Some 50%R) None 7 7 st
  = nfl_predict (Some "Los Angeles Rams") (Some "Seattle Seahawks") false None None None 7 7 st.
Proof. by rewrite !nfl_predict_run. Qed.

Section Features.
Variable w : world.

(** C10: [nfl_features] returns unless the start timestamp fails to
    parse, it leaves the state alone, and the two rest-day counts it
    returns are both exactly 7; so the rest term of [nfl_predict] on
    these features is exactly 0 and the prediction is the one without a
    rest term. *)
Theorem nfl_rest_term_zero (game : item) (st : state) :
  match nfl_features w game st with
  | (Ok (home, away, dt, stadium, out, t, wd, p, rest_home, rest_away), st1) =>
      st1 = st
      /\ parse_commence w (commence_time game) = Ok dt
      /\ rest_home = 7%Z /\ rest_away = 7%Z
      /\ (IZR (rest_home - rest_away) * 1.5 = 0)%R
      /\ nfl_predict home away out t wd p rest_home rest_away st
         = (Ok (win_prob
                  (rating st ("NFL:" +:+ py_str home) + 55
                   + spec_weather out t wd p
                   - rating st ("NFL:" +:+ py_str away))),
            touch ("NFL:" +:+ py_str away) (touch ("NFL:" +:+ py_str home) st))
  | (Raise e, st1) =>
      st1 = st /\ parse_commence w (commence_time game) = Raise e
  end.
Proof.
  unfold nfl_features, mbind, M_bind, lift.
  destruct (parse_commence w (commence_time game)) as [dt|e]; [| done].
  destruct (match (if default false _ then _ else None) with
            | Some (lat, lon) => _
            | None => _
            end) as [[t wd] p].
  unfold mret, M_ret.
  repeat split; try done.
  - change (7 - 7)%Z with 0%Z. lra.
  - rewrite nfl_predict_run. do 3 f_equal.
    change (7 - 7)%Z with 0%Z. lra.
Qed.
End Features.

(** ** Order of strings *)

Lemma ltb_lt (a b : string) : String.ltb a b = true <-> String.compare a b = Lt.
Proof. unfold String.ltb. destruct (String.compare a b); split; congruence. Qed.

Lemma ltb_irrefl (a : string) : String.ltb a a = false.
Proof.
  unfold String.ltb. pose proof (String.compare_antisym a a) as H.
  by destruct (String.compare a a).
Qed.

Lemma ltb_asym (a b : string) : String.ltb a b = true -> String.ltb b a = false.
Proof.
  unfold String.ltb. rewrite (String.compare_antisym a b).
  by destruct (String.compare b a).
Qed.

Lemma ltb_trans (a b c : string) :
  String.ltb a b = true -> String.ltb b c = true -> String.ltb a c = true.
Proof.
  rewrite !ltb_lt.
  change String.compare with OrderedTypeEx.String_as_OT.cmp.
  rewrite !OrderedTypeEx.String_as_OT.cmp_lt.
  apply OrderedTypeEx.String_as_OT.lt_trans.
Qed.

Lemma ltb_false_cases (a b : string) :
  String.ltb a b = false -> a = b \/ String.ltb b a = true.
Proof.
  unfold String.ltb. rewrite (String.compare_antisym b a).
  destruct (String.compare a b) eqn:E; simpl; intros H; try done.
  - left. by apply String.compare_eq_iff.
  - by right.
Qed.

Section SortFacts.
Context {A : Type} (key : A -> string).

Lemma key_le_trans (x y z : A) : key_le key x y -> key_le key y z -> key_le key x z.
Proof.
  unfold key_le. intros Hxy Hyz.
  destruct (String.ltb (key z) (key x)) eqn:Hzx; [| done].
  destruct (ltb_false_cases _ _ Hxy) as [Heq | Hlt].
  - rewrite <- Heq in Hzx. congruence.
  - pose proof (ltb_trans _ _ _ Hzx Hlt). congruence.
Qed.

Lemma insert_sorted_perm (x : A) (l : list A) : insert_sorted key x l ≡ₚ x :: l.
Proof.
  induction l as [| y l IH]; simpl; [done |].
  destruct (String.ltb (key y) (key x)); [| done].
  rewrite IH. apply Permutation_swap.
Qed.

Lemma sort_by_perm (l : list A) : sort_by key l ≡ₚ l.
Proof.
  induction l as [| x l IH]; simpl; [done |].
  by rewrite insert_sorted_perm, IH.
Qed.

Lemma insert_sorted_sorted (x : A) (l : list A) :
  StronglySorted (key_le key) l -> StronglySorted (key_le key) (insert_sorted key x l).
Proof.
  induction 1 as [| y l Hs IH Hy]; simpl.
  - by repeat constructor.
  - destruct (String.ltb (key y) (key x)) eqn:Hyx.
    + constructor; [done |].
      rewrite insert_sorted_perm. constructor; [| done].
      unfold key_le. by apply ltb_asym.
    + constructor; [by constructor |].
      constructor; [done |].
      eapply Forall_impl; [exact Hy |]. intros z Hz.
      by apply (key_le_trans x y z).
Qed.

Lemma sort_by_sorted (l : list A) : StronglySorted (key_le key) (sort_by key l).
Proof.
  induction l as [| x l IH]; simpl; [constructor |].
  by apply insert_sorted_sorted.
Qed.

(** Stability: an inserted element only passes elements with a strictly
    smaller key, so elements that share a key keep their order. *)
Lemma insert_sorted_stable (k : string) (x : A) (l : list A) :
  List.filter (has_key key k) (insert_sorted key x l)
  = List.filter (has_key key k) (x :: l).
Proof.
  induction l as [| y l IH]; [done |].
  cbn [insert_sorted].
  destruct (String.ltb (key y) (key x)) eqn:Hyx; [| done].
  cbn [List.filter] in *. rewrite IH.
  unfold has_key.
  destruct (String.eqb_spec (key x) k) as [Hx|Hx],
           (String.eqb_spec (key y) k) as [Hy|Hy]; try done.
  rewrite Hx, Hy, ltb_irrefl in Hyx. done.
Qed.

Lemma sort_by_stable (k : string) (l : list A) :
  List.filter (has_key key k) (sort_by key l) = List.filter (has_key key k) l.
Proof.
  induction l as [| x l IH]; [done |].
  cbn [sort_by]. rewrite insert_sorted_stable.
  cbn [List.filter]. by rewrite IH.
Qed.
End SortFacts.

(** ** The today-filter *)

Section FilterFacts.
Variable w : world.

Lemma start_instant_parse (it : item) (dt : Z) :
  start_instant w it = Some dt ->
  str_truthy (commence_time it) = true
  /\ parse_commence w (commence_time it) = Ok dt.
Proof.
  unfold start_instant, parse_commence, str_truthy.
  destruct (commence_time it) as [iso|]; [| done].
  destruct (String.eqb iso EmptyString); [done |].
  destruct (fromisoformat w (replace_Z iso)) as [t|]; [| done].
  destruct (in_datetime_range t); [| done]. by intros [= ->].
Qed.

Lemma start_instant_range (it : item) (dt : Z) :
  start_instant w it = Some dt -> shift_to_utc dt = Ok dt.
Proof.
  unfold start_instant, shift_to_utc.
  destruct (commence_time it) as [iso|]; [| done].
  destruct (String.eqb iso EmptyString); [done |].
  destruct (fromisoformat w (replace_Z iso)) as [t|]; [| done].
  destruct (in_datetime_range t) eqn:Hr; [| done]. intros [= <-]. by rewrite Hr.
Qed.

Lemma start_instant_falsy (it : item) :
  str_truthy (commence_time it) = false -> start_instant w it = None.
Proof.
  unfold start_instant, str_truthy.
  destruct (commence_time it) as [iso|]; [| done].
  by destruct (String.eqb iso EmptyString).
Qed.

(** One turn of the loop on an event without a usable timestamp, and on
    an event that has a start instant. *)
Lemma filter_loop_skip (s e : Z) (it : item) (rest out : list item) :
  str_truthy (commence_time it) = false ->
  filter_loop w s e (it :: rest) out = filter_loop w s e rest out.
Proof. intros Ht. simpl. by rewrite Ht. Qed.

Lemma filter_loop_step (s e : Z) (it : item) (rest out : list item) (dt : Z) :
  start_instant w it = Some dt ->
  filter_loop w s e (it :: rest) out
  = if ((s <=? dt) && (dt <? e))%Z
    then filter_loop w s e rest (out ++ [it])
    else filter_loop w s e rest out.
Proof.
  intros Hs. pose proof (start_instant_range _ _ Hs) as Hr.
  apply start_instant_parse in Hs as [Ht Hp].
  simpl. by rewrite Ht, Hp, Hr.
Qed.

(** On readable events the loop is a plain filter that keeps the input
    order. *)
Lemma filter_loop_readable (s e : Z) (items out : list item) :
  Forall (readable w) items ->
  filter_loop w s e items out = Ok (out ++ List.filter (starts_within w s e) items).
Proof.
  intros Hall. revert out.
  induction Hall as [| it items Hit _ IH]; intros out.
  - simpl. by rewrite app_nil_r.
  - cbn [List.filter]. unfold starts_within at 1.
    destruct (str_truthy (commence_time it)) eqn:Ht.
    + destruct (Hit Ht) as [dt Hdt].
      rewrite (filter_loop_step _ _ _ _ _ dt Hdt), Hdt.
      destruct ((s <=? dt) && (dt <? e))%Z; [| apply IH].
      rewrite IH. by rewrite <- app_assoc.
    + rewrite filter_loop_skip, start_instant_falsy by done. apply IH.
Qed.

(** After readable events, the first event whose timestamp is present
    and fails in the parse or in the shift ends the loop with the
    exception of that failure. *)
Lemma filter_loop_fails (s e : Z) (pre post out : list item) (bad : item) (x : exn) :
  Forall (readable w) pre ->
  str_truthy (commence_time bad) = true ->
  parse_commence w (commence_time bad) = Raise x
  \/ (exists dt, parse_commence w (commence_time bad) = Ok dt
                 /\ shift_to_utc dt = Raise x) ->
  filter_loop w s e (pre ++ bad :: post) out = Raise x.
Proof.
  intros Hpre Ht Hbad. revert out.
  induction Hpre as [| it pre Hit _ IH]; intros out.
  - simpl. rewrite Ht. simpl.
    destruct Hbad as [-> | (dt & -> & ->)]; done.
  - rewrite <- app_comm_cons.
    destruct (str_truthy (commence_time it)) eqn:Hti.
    + destruct (Hit Hti) as [dt Hdt].
      rewrite (filter_loop_step _ _ _ _ _ dt Hdt).
      destruct (_ && _)%Z; apply IH.
    + rewrite filter_loop_skip by done. apply IH.
Qed.

Lemma filter_loop_raises (s e : Z) (pre post out : list item) (bad : item) (x : exn) :
  Forall (readable w) pre ->
  str_truthy (commence_time bad) = true ->
  parse_commence w (commence_time bad) = Raise x ->
  filter_loop w s e (pre ++ bad :: post) out = Raise x.
Proof. intros Hpre Ht Hbad. apply filter_loop_fails; auto. Qed.

Lemma filter_today_readable (items : list item) :
  Forall (readable w) items ->
  filter_today w items = Ok (sort_by sort_key (todays w items)).
Proof.
  intros Hall. unfold filter_today, todays, today_start, today_end.
  destruct (local_date_bounds w) as [start_l end_l]. simpl.
  by rewrite filter_loop_readable.
Qed.

Lemma filter_today_fails (pre post : list item) (bad : item) (x : exn) :
  Forall (readable w) pre ->
  str_truthy (commence_time bad) = true ->
  parse_commence w (commence_time bad) = Raise x
  \/ (exists dt, parse_commence w (commence_time bad) = Ok dt
                 /\ shift_to_utc dt = Raise x) ->
  filter_today w (pre ++ bad :: post) = Raise x.
Proof.
  intros Hpre Ht Hbad. unfold filter_today.
  destruct (local_date_bounds w) as [start_l end_l].
  by rewrite (filter_loop_fails _ _ pre post [] bad x).
Qed.

Lemma filter_today_raises (pre post : list item) (bad : item) (x : exn) :
  Forall (readable w) pre ->
  str_truthy (commence_time bad) = true ->
  parse_commence w (commence_time bad) = Raise x ->
  filter_today w (pre ++ bad :: post) = Raise x.
Proof. intros Hpre Ht Hbad. apply filter_today_fails; auto. Qed.

(** [local_date_bounds] returns the midnight that opens the local day of
    the clock, and the midnight one day later on the wall clock. *)
Lemma local_date_bounds_midnight :
  let now_l := (now w + utcoffset_at w (now w))%Z in
  let '(start_l, end_l) := local_date_bounds w in
  (start_l mod DAY = 0 /\ start_l <= now_l < end_l /\ end_l = start_l + DAY)%Z.
Proof.
  unfold local_date_bounds. cbv zeta.
  set (n := (now w + utcoffset_at w (now w))%Z).
  assert (0 < DAY)%Z as Hd by (unfold DAY; lia).
  pose proof (Z.mod_pos_bound n DAY Hd).
  pose proof (Z.div_mod n DAY ltac:(lia)).
  repeat split; try lia.
  apply Z.mod_mul. lia.
Qed.

(** A whole number of days that holds the local time of the clock within
    the day it opens is the start of [local_date_bounds]. *)
Lemma local_midnight_unique (start_l : Z) :
  (start_l mod DAY = 0)%Z ->
  (start_l <= now w + utcoffset_at w (now w) < start_l + DAY)%Z ->
  local_date_bounds w = (start_l, (start_l + DAY)%Z).
Proof.
  intros Hmod Hin.
  pose proof local_date_bounds_midnight as Hm. cbv zeta in Hm.
  destruct (local_date_bounds w) as [s0 e0]. destruct Hm as (Hm0 & Hin0 & ->).
  assert (0 < DAY)%Z as Hd by (unfold DAY; lia).
  apply Z.mod_divide in Hmod as [q Hq]; [| lia].
  apply Z.mod_divide in Hm0 as [q0 Hq0]; [| lia].
  assert (q = q0) by nia. subst. done.
Qed.

Lemma in_todays (items : list item) (it : item) :
  In it (todays w items) <->
  In it items /\ exists dt, start_instant w it = Some dt
                            /\ (today_start w <= dt < today_end w)%Z.
Proof.
  unfold todays. rewrite filter_In. unfold starts_within.
  split.
  - intros [Hin Hw]. split; [done |].
    destruct (start_instant w it) as [dt|]; [| done].
    exists dt. split; [done | lia].
  - intros [Hin (dt & -> & Hdt)]. split; [done | lia].
Qed.

(** C4: let [start_l] be local midnight today: a whole number of days on
    the local wall clock with the local time of the clock inside the day
    it opens; let [start_u] and [end_u] be that midnight and the midnight
    one day later on the wall clock, both taken to UTC with the offset
    the zone gives them.  On events it can read, the today-filter
    returns exactly the events whose start instant lies in the half-open
    interval from [start_u] to [end_u]: an event that starts at
    [start_u] is kept and an event that starts at [end_u] is dropped. *)
Theorem filter_today_window (items : list item) (start_l : Z) :
  (start_l mod DAY = 0)%Z ->
  (start_l <= now w + utcoffset_at w (now w) < start_l + DAY)%Z ->
  let start_u := (start_l - utcoffset_wall w start_l)%Z in
  let end_u := (start_l + DAY - utcoffset_wall w (start_l + DAY))%Z in
  (start_u < end_u)%Z ->
  Forall (readable w) items ->
  exists out,
    filter_today w items = Ok out
    /\ (forall it, In it out <->
          In it items /\ exists dt, start_instant w it = Some dt
                                    /\ (start_u <= dt < end_u)%Z)
    /\ out ≡ₚ List.filter
                (fun it => match start_instant w it with
                           | Some dt => ((start_u <=? dt) && (dt <? end_u))%Z
                           | None => false
                           end) items
    /\ (forall it, In it items -> start_instant w it = Some start_u -> In it out)
    /\ (forall it, start_instant w it = Some end_u -> ~ In it out).
Proof.
  intros Hmod Hnow start_u end_u Hday Hall.
  assert (Hs : today_start w = start_u)
    by (unfold today_start; by rewrite (local_midnight_unique start_l)).
  assert (He : today_end w = end_u)
    by (unfold today_end; by rewrite (local_midnight_unique start_l)).
  exists (sort_by sort_key (todays w items)).
  assert (Hperm : sort_by sort_key (todays w items) ≡ₚ todays w items)
    by apply sort_by_perm.
  assert (Hin : forall it, In it (sort_by sort_key (todays w items)) <->
                           In it (todays w items)).
  { intros it. split; apply Permutation_in; [done | by symmetry]. }
  split; [by apply filter_today_readable |].
  split; [intros it; by rewrite Hin, in_todays, Hs, He |].
  split; [| split].
  - rewrite Hperm. unfold todays, starts_within. by rewrite Hs, He.
  - intros it Hit Hst. rewrite Hin, in_todays, Hs, He. split; [done |].
    eexists. split; [exact Hst | lia].
  - intros it Hen. rewrite Hin, in_todays, Hs, He. intros [_ (dt & Hdt & Hlt)].
    rewrite Hen in Hdt. injection Hdt as <-. lia.
Qed.

(** C5 (amended): on events it can read, the today-filter returns the
    events of today sorted ascending by the text of [commence_time], as
    [<] on strings orders it, and events with the same text keep their
    input order. *)
Theorem filter_today_sorted_by_text (items : list item) :
  Forall (readable w) items ->
  exists out,
    filter_today w items = Ok out
    /\ out ≡ₚ todays w items
    /\ StronglySorted (key_le sort_key) out
    /\ (forall k, List.filter (has_key sort_key k) out
                  = List.filter (has_key sort_key k) (todays w items)).
Proof.
  intros Hall. exists (sort_by sort_key (todays w items)).
  split; [by apply filter_today_readable |].
  split; [apply sort_by_perm |].
  split; [apply sort_by_sorted |].
  intros k. apply sort_by_stable.
Qed.
End FilterFacts.

(** ** Worked examples of the today-filter *)

Ltac readable_by_computation :=
  repeat (apply List.Forall_cons;
          [ let Ht := fresh in
            intros Ht; vm_compute in Ht;
            first [ discriminate Ht | vm_compute; eexists; reflexivity ] | ]);
  apply List.Forall_nil.

Lemma boundary_events_readable : Forall (readable quiet_world) boundary_events.
Proof. readable_by_computation. Qed.

(** The day filter on the boundary events: local 00:00:00 and 23:59:59 are
    kept, the 00:00:00 of the next day and the event without timestamp are not. *)
Example filter_today_boundaries :
  filter_today quiet_world boundary_events
  = Ok [ event_at "2023-12-31T23:00:00Z"; event_at "2024-01-01T22:59:59Z" ]
  /\ start_instant quiet_world (event_at "2023-12-31T23:00:00Z")
     = Some (today_start quiet_world)
  /\ start_instant quiet_world (event_at "2024-01-01T23:00:00Z")
     = Some (today_end quiet_world).
Proof. by vm_compute. Qed.

Lemma filter_today_window_example :
  let start_u := (1704067200000000 - utcoffset_wall quiet_world 1704067200000000)%Z in
  let end_u := (1704067200000000 + DAY
                - utcoffset_wall quiet_world (1704067200000000 + DAY))%Z in
  exists out,
    filter_today quiet_world boundary_events = Ok out
    /\ (forall it, In it out <->
          In it boundary_events
          /\ exists dt, start_instant quiet_world it = Some dt
                        /\ (start_u <= dt < end_u)%Z)
    /\ out ≡ₚ List.filter
                (fun it => match start_instant quiet_world it with
                           | Some dt => ((start_u <=? dt) && (dt <? end_u))%Z
                           | None => false
                           end) boundary_events
    /\ (forall it, In it boundary_events ->
          start_instant quiet_world it = Some start_u -> In it out)
    /\ (forall it, start_instant quiet_world it = Some end_u -> ~ In it out).
Proof.
  apply (filter_today_window quiet_world boundary_events 1704067200000000).
  - vm_compute. reflexivity.
  - vm_compute. split; [discriminate | reflexivity].
  - vm_compute. reflexivity.
  - readable_by_computation.
Defined.

(** The output is ordered by the text of the timestamps, not by the
    instants they denote: of two events written with different offsets the
    later one comes first, and of two writings of one instant the second
    of the input comes first. *)
Lemma filter_today_not_by_instant :
  filter_today quiet_world mixed_offsets
  = Ok [ event_at "2024-01-01T09:00:00+00:00"; event_at "2024-01-01T10:00:00+02:00" ]
  /\ start_instant quiet_world (event_at "2024-01-01T09:00:00+00:00")
     = Some 1704099600000000%Z
  /\ start_instant quiet_world (event_at "2024-01-01T10:00:00+02:00")
     = Some 1704096000000000%Z
  /\ ~ instant_le quiet_world (event_at "2024-01-01T09:00:00+00:00")
                              (event_at "2024-01-01T10:00:00+02:00")
  /\ filter_today quiet_world same_instant
     = Ok [ event_at "2024-01-01T09:00:00+00:00"; event_at "2024-01-01T09:00:00Z" ]
  /\ start_instant quiet_world (event_at "2024-01-01T09:00:00Z")
     = start_instant quiet_world (event_at "2024-01-01T09:00:00+00:00").
Proof.
  repeat split; try (vm_compute; reflexivity).
  vm_compute. intros H. by apply H.
Qed.

Lemma filter_today_sorted_by_text_example :
  exists out,
    filter_today quiet_world mixed_offsets = Ok out
    /\ out ≡ₚ todays quiet_world mixed_offsets
    /\ StronglySorted (key_le sort_key) out
    /\ (forall k, List.filter (has_key sort_key k) out
                  = List.filter (has_key sort_key k) (todays quiet_world mixed_offsets)).
Proof.
  apply (filter_today_sorted_by_text quiet_world mixed_offsets).
  readable_by_computation.
Defined.

(** C6: at an event whose timestamp is present and does not parse, the
    today-filter ends with the [ValueError] of the parse instead of
    leaving the event out; an event without timestamp is left out, and
    [to_local_str] catches the same failure. *)
Theorem filter_today_unparseable_raises :
  filter_today quiet_world [ event_at "2024-01-01T12:00:00Z"; event_at "not-a-date" ]
  = Raise ValueError
  /\ filter_today quiet_world
       [ event_at "2024-01-01T12:00:00Z"; mkItem (Some "Home") (Some "Away") None [] ]
     = Ok [ event_at "2024-01-01T12:00:00Z" ]
  /\ to_local_str quiet_world (Some "not-a-date") = Some "not-a-date".
Proof. by vm_compute. Qed.

(** ** Rendering of an empty day *)

Section EmptyDay.
Variable w : world.

Lemma block_of_nil (lg : string) (st : state) :
  block_of w lg [] st = (Ok (no_events_text lg), st).
Proof.
  unfold block_of, no_events_text.
  destruct (String.eqb lg "mlb"); [done |].
  by destruct (String.eqb lg "nfl").
Qed.

Lemma lower_league (lg : string) : In lg leagues -> lower lg = lg.
Proof. intros [<- | [<- | [<- | []]]]; by vm_compute. Qed.

Lemma block_if_any_nil (block : list item -> M string) (st : state) :
  block_if_any block [] st = (Ok [], st).
Proof. done. Qed.

Lemma cmd_today_one_empty (lg : string) (st : state) :
  str_truthy (ODDS_API_KEY w) = true ->
  In lg leagues ->
  get_today_by_league w lg st = (Ok [], st) ->
  cmd_today w [lg] st = (Ok tt, push_chat st (no_events_text lg)).
Proof.
  intros Hkey Hlg Hget. unfold cmd_today. rewrite Hkey. cbv zeta.
  change (lower <$> [lg]) with [lower lg]. rewrite lower_league by done.
  destruct Hlg as [<- | [<- | [<- | []]]];
    cbn -[get_today_by_league]; unfold mbind, M_bind; by rewrite Hget.
Qed.

Lemma cmd_today_all_empty (st : state) :
  str_truthy (ODDS_API_KEY w) = true ->
  (forall lg, In lg leagues -> get_today_by_league w lg st = (Ok [], st)) ->
  cmd_today w ["all"] st
  = (Ok tt, push_chat st ("No events today (" +:+ when w +:+ ").")).
Proof.
  intros Hkey Hget. unfold cmd_today. rewrite Hkey. cbv zeta.
  change (lower <$> ["all"]) with ["all"].
  cbn -[get_today_by_league when]. unfold mbind, M_bind.
  rewrite !Hget by (simpl; tauto). done.
Qed.

Lemma post_today_all_empty (st : state) :
  str_truthy (CHANNEL_ID w) = true ->
  str_truthy (ODDS_API_KEY w) = true ->
  (forall lg st', In lg leagues -> get_today_by_league w lg st' = (Ok [], st')) ->
  exists st',
    post_today w st = (Ok tt, st')
    /\ chat st' = chat st ++ [ "📅 Today’s slate (" +:+ when w +:+ ")";
                               "No MLB games today."; "No NFL games today.";
                               "No UFC fights today." ].
Proof.
  intros Hch Hkey Hget. unfold post_today. rewrite Hch, Hkey.
  cbn -[get_today_by_league when]. unfold mbind, M_bind, send.
  repeat (rewrite Hget by (simpl; tauto);
          cbn -[get_today_by_league when]; unfold mbind, M_bind, mret, M_ret;
          cbn -[get_today_by_league when]).
  eexists. split; [reflexivity |]. simpl. by rewrite <- !app_assoc.
Qed.

End EmptyDay.

(** With an empty schedule, [/today all] sends one generic line and none
    of the three no-events texts, although the list of every league is
    empty. *)
Lemma cmd_today_all_omits_blocks :
  get_today_by_league idle_world "mlb" fresh_state = (Ok [], fresh_state)
  /\ get_today_by_league idle_world "nfl" fresh_state = (Ok [], fresh_state)
  /\ get_today_by_league idle_world "ufc" fresh_state = (Ok [], fresh_state)
  /\ chat (cmd_today idle_world ["all"] fresh_state).2 = ["No events today (%b %d)."]
  /\ forall lg, In lg leagues ->
       ~ In (no_events_text lg) (chat (cmd_today idle_world ["all"] fresh_state).2).
Proof.
  repeat split; try (vm_compute; reflexivity).
  intros lg Hlg.
  assert (Hchat : chat (cmd_today idle_world ["all"] fresh_state).2
                  = ["No events today (%b %d)."]) by (vm_compute; reflexivity).
  rewrite Hchat.
  destruct Hlg as [<- | [<- | [<- | []]]]; vm_compute; intros [H | []]; discriminate H.
Qed.

(** * Further properties *)

(** ** The transform *)

Lemma win_prob_mono (d1 d2 : R) : (d1 < d2)%R -> (win_prob d1 < win_prob d2)%R.
Proof.
  intros Hlt. unfold win_prob.
  assert (Hp : (pow10 (- d2 / 400) < pow10 (- d1 / 400))%R)
    by (unfold pow10; apply Rpower_lt; lra).
  pose proof (pow10_pos (- d2 / 400)) as H2.
  unfold Rdiv. apply Rmult_lt_compat_l; [lra |].
  apply Rinv_0_lt_contravar; lra.
Qed.

Lemma win_prob_half_iff (d : R) : (win_prob d >= 0.5)%R <-> (0 <= d)%R.
Proof.
  split.
  - intros Hge. destruct (Rle_lt_dec 0 d) as [|Hneg]; [done |].
    pose proof (win_prob_mono d 0 Hneg) as H. rewrite win_prob_0 in H. lra.
  - intros [Hpos | <-].
    + pose proof (win_prob_mono 0 d Hpos) as H. rewrite win_prob_0 in H. lra.
    + rewrite win_prob_0. lra.
Qed.

(** X1: for a differential of at least -123000, where the power of ten
    stays within the range of a double, the win probability is a
    probability: it lies between 0 and 1, bounds included. *)
Theorem win_prob_range (d : R) :
  (-123000 <= d)%R -> (0 <= win_prob d <= 1)%R.
Proof.
  intros _. pose proof (win_prob_pos d). pose proof (win_prob_lt_1 d). lra.
Qed.

Lemma win_prob_range_example : (0 <= win_prob 55 <= 1)%R.
Proof. apply (win_prob_range 55). lra. Defined.

(** X2: from a differential of -123000 on, a differential that is not
    smaller never gives a smaller win probability. *)
Theorem win_prob_increasing (d1 d2 : R) :
  (-123000 <= d1)%R -> (d1 <= d2)%R -> (win_prob d1 <= win_prob d2)%R.
Proof.
  intros _ [Hlt | <-]; [| lra].
  pose proof (win_prob_mono d1 d2 Hlt). lra.
Qed.

Lemma win_prob_increasing_example : (win_prob (-55) <= win_prob 55)%R.
Proof. apply (win_prob_increasing (-55) 55); lra. Defined.

(** X3: a differential that is not negative gives a probability of at
    least one half, so the pick of the renderers is then the first
    side. *)
Theorem pick_follows_differential {T} (d : R) (home away : T) :
  (0 <= d)%R ->
  (win_prob d >= 0.5)%R /\ pick_of (win_prob d) home away = home.
Proof.
  intros Hd. pose proof (proj2 (win_prob_half_iff d) Hd) as Hge.
  split; [done |]. unfold pick_of. by destruct (Rge_dec (win_prob d) 0.5).
Qed.

Lemma pick_follows_differential_example :
  (win_prob 30 >= 0.5)%R /\ pick_of (win_prob 30) "Home" "Away" = "Home".
Proof. apply (pick_follows_differential 30 "Home" "Away"). lra. Defined.

(** X4: the transform is the [logistic] function of the source at
    [d * ln 10 / 400], and [logistic] gives complementary values at [x]
    and [-x]. *)
Theorem win_prob_is_logistic (d x : R) :
  win_prob d = logistic (d * ln 10 / 400)
  /\ (logistic x + logistic (- x) = 1)%R.
Proof.
  split.
  - unfold win_prob, logistic, pow10, Rpower. do 3 f_equal. field.
  - unfold logistic. rewrite Ropp_involutive, exp_Ropp.
    pose proof (logistic_pair _ (exp_pos x)) as H.
    replace (1.0 + / exp x)%R with (1 + / exp x)%R by lra.
    replace (1.0 + exp x)%R with (1 + exp x)%R by lra.
    lra.
Qed.

(** ** The store *)

(** X5: after [elo_set key r] a read of [key] returns [r], whatever the
    base, and changes nothing; the write replaces an earlier write to the
    key and leaves every other row, the results table and the chat
    alone. *)
Theorem elo_set_get_round_trip (key : string) (r r0 base : R) (st : state) :
  let st1 := (elo_set key r st).2 in
  elo_get key base st1 = (Ok r, st1)
  /\ (elo_set key r (elo_set key r0 st).2).2 = st1
  /\ (forall key', key' ≠ key -> elo st1 !! key' = elo st !! key')
  /\ results st1 = results st /\ chat st1 = chat st.
Proof.
  cbv zeta. unfold elo_set, elo_get, set_elo. simpl.
  rewrite lookup_insert_eq, insert_insert_eq. repeat split.
  intros key' Hne. by rewrite lookup_insert_ne.
Qed.

(** ** The update *)

Lemma actual_score_swap (a_score b_score : Z) :
  actual_score b_score a_score = (1.0 - actual_score a_score b_score)%R.
Proof.
  unfold actual_score.
  destruct (Z.ltb_spec b_score a_score), (Z.ltb_spec a_score b_score),
           (Z.eqb_spec a_score b_score), (Z.eqb_spec b_score a_score);
    try lia; lra.
Qed.

Lemma elo_new_ratings_swap (Ra Rb : R) (a_score b_score : Z) (k : R) :
  elo_new_ratings Rb Ra b_score a_score k =
  ((elo_new_ratings Ra Rb a_score b_score k).2,
   (elo_new_ratings Ra Rb a_score b_score k).1).
Proof.
  unfold elo_new_ratings. simpl. rewrite actual_score_swap.
  f_equal; f_equal; f_equal; lra.
Qed.

(** X6: which competitor is passed first does not matter: for two
    distinct keys, [elo_update] with keys and scores both swapped does
    the same. *)
Theorem elo_update_swap_roles (a_key b_key : string) (a_score b_score : Z) (k : R)
    (st : state) :
  a_key ≠ b_key ->
  elo_update b_key a_key b_score a_score k st
  = elo_update a_key b_key a_score b_score k st.
Proof.
  intros Hne. rewrite !elo_update_run, elo_new_ratings_swap.
  destruct (elo_new_ratings _ _ _ _ _) as [Ra2 Rb2]. simpl.
  by rewrite insert_insert_ne.
Qed.

Lemma elo_update_swap_roles_example :
  elo_update "MLB:B" "MLB:A" 2 5 20.0 fresh_state
  = elo_update "MLB:A" "MLB:B" 5 2 20.0 fresh_state.
Proof. apply (elo_update_swap_roles "MLB:A" "MLB:B" 5 2 20.0 fresh_state). discriminate. Defined.

(** X7: when [a] wins, the rating [a] gains is what [b] loses, and it is
    at least 0 and at most [k]. *)
Theorem elo_update_winner_gain (a_key b_key : string) (a_score b_score : Z) (k : R)
    (st : state) :
  a_key ≠ b_key -> (0 < k)%R -> (b_score < a_score)%Z ->
  let st' := (elo_update a_key b_key a_score b_score k st).2 in
  (rating st' a_key - rating st a_key = rating st b_key - rating st' b_key)%R
  /\ (0 <= rating st' a_key - rating st a_key <= k)%R.
Proof.
  intros Hne Hk Hwin. cbv zeta. rewrite elo_update_run.
  rewrite elo_new_ratings_win by done. cbn [snd].
  rewrite rating_after_update_a, rating_after_update_b by done.
  pose proof (win_prob_opp (rating st a_key - rating st b_key)) as Hs.
  replace (- (rating st a_key - rating st b_key))%R
    with (rating st b_key - rating st a_key)%R in Hs by lra.
  pose proof (win_prob_pos (rating st a_key - rating st b_key)).
  pose proof (win_prob_lt_1 (rating st a_key - rating st b_key)).
  repeat split; nra.
Qed.

Lemma elo_update_winner_gain_example :
  let st' := (elo_update "MLB:A" "MLB:B" 5 2 20.0 fresh_state).2 in
  (rating st' "MLB:A" - rating fresh_state "MLB:A"
   = rating fresh_state "MLB:B" - rating st' "MLB:B")%R
  /\ (0 <= rating st' "MLB:A" - rating fresh_state "MLB:A" <= 20.0)%R.
Proof.
  apply (elo_update_winner_gain "MLB:A" "MLB:B" 5 2 20.0 fresh_state).
  - discriminate.
  - lra.
  - lia.
Defined.

(** X8: [elo_update] changes no row other than those of its two keys,
    and leaves the results table and the chat alone. *)
Theorem elo_update_frame (a_key b_key key : string) (a_score b_score : Z) (k : R)
    (st : state) :
  key ≠ a_key -> key ≠ b_key ->
  let st' := (elo_update a_key b_key a_score b_score k st).2 in
  elo st' !! key = elo st !! key
  /\ results st' = results st /\ chat st' = chat st.
Proof.
  intros Ha Hb. cbv zeta. rewrite elo_update_run.
  destruct (elo_new_ratings _ _ _ _ _) as [Ra2 Rb2]. simpl.
  by rewrite !lookup_insert_ne.
Qed.

Lemma elo_update_frame_example :
  let st' := (elo_update "MLB:A" "MLB:B" 5 2 20.0 settled_state).2 in
  elo st' !! "MLB:C" = elo settled_state !! "MLB:C"
  /\ results st' = results settled_state /\ chat st' = chat settled_state.
Proof.
  apply (elo_update_frame "MLB:A" "MLB:B" "MLB:C" 5 2 20.0 settled_state); discriminate.
Defined.

(** X9: with one key in both places the two writes hit one row and the
    second stays: the rating moves by [k] times the score of the second
    place minus one half, so a won game lowers it by [k/2]. *)
Theorem elo_update_same_key (a_key : string) (a_score b_score : Z) (k : R) (st : state) :
  let st' := (elo_update a_key a_key a_score b_score k st).2 in
  rating st' a_key
  = (rating st a_key + k * ((1.0 - actual_score a_score b_score) - 0.5))%R.
Proof.
  cbv zeta. rewrite elo_update_run. unfold elo_new_ratings. cbn [snd].
  rewrite rating_after_update_b.
  replace ((rating st a_key - rating st a_key) / 400)%R with 0%R by lra.
  rewrite pow10_0. lra.
Qed.

(** X10: a draw never moves the two ratings apart: the competitor rated
    at least as high does not gain rating and the other does not lose
    any. *)
Theorem elo_update_draw (a_key b_key : string) (score : Z) (k : R) (st : state) :
  a_key ≠ b_key -> (0 < k)%R -> (rating st b_key <= rating st a_key)%R ->
  let st' := (elo_update a_key b_key score score k st).2 in
  (rating st' a_key <= rating st a_key)%R /\ (rating st b_key <= rating st' b_key)%R.
Proof.
  intros Hne Hk Hhi. cbv zeta. rewrite elo_update_run.
  unfold elo_new_ratings, actual_score. rewrite Z.ltb_irrefl, Z.eqb_refl.
  cbn [snd]. rewrite rating_after_update_a, rating_after_update_b by done.
  rewrite !expected_is_win_prob.
  pose proof (proj2 (win_prob_half_iff (rating st a_key - rating st b_key))
                ltac:(lra)) as H1.
  pose proof (win_prob_opp (rating st a_key - rating st b_key)) as Hs.
  replace (- (rating st a_key - rating st b_key))%R
    with (rating st b_key - rating st a_key)%R in Hs by lra.
  split; nra.
Qed.

Lemma elo_update_draw_example :
  let st' := (elo_update "MLB:A" "MLB:B" 3 3 20.0 fresh_state).2 in
  (rating st' "MLB:A" <= rating fresh_state "MLB:A")%R
  /\ (rating fresh_state "MLB:B" <= rating st' "MLB:B")%R.
Proof.
  apply (elo_update_draw "MLB:A" "MLB:B" 3 20.0 fresh_state).
  - discriminate.
  - lra.
  - unfold rating, fresh_state. simpl. rewrite !lookup_empty. simpl. lra.
Defined.

(** ** The predictors *)

Lemma mlb_predict_run (home away : option string) (pf : Z)
    (temp_c wind_kmh : option R) (st : state) :
  let hk := "MLB:" +:+ py_str home in
  let ak := "MLB:" +:+ py_str away in
  mlb_predict home away pf temp_c wind_kmh st =
  (Ok (win_prob (rating st hk + 30 + mlb_park_term pf + mlb_temp_term temp_c
                 + mlb_wind_term wind_kmh - rating st ak)),
   touch ak (touch hk st)).
Proof.
  intros hk ak. unfold mlb_predict, mbind, M_bind.
  rewrite elo_get_run. fold hk. rewrite elo_get_run. fold ak.
  rewrite rating_touch. unfold ret, mret, M_ret.
  unfold mlb_park_term, mlb_temp_term, mlb_wind_term.
  destruct temp_c as [t|], wind_kmh as [wd|];
    repeat match goal with
           | |- context [Rlt_dec ?x ?y] => destruct (Rlt_dec x y)
           end;
    close_prob.
Qed.

(** X11: [mlb_predict] is the transform of the home rating plus 30, plus
    0.2 per point of park factor above 100, plus half a point per degree
    above 20 when a temperature is known, plus 3 when a wind above
    30 km/h is known, minus the away rating; absent weather adds nothing.
    Both ratings are read with the base rating as default. *)
Theorem mlb_predict_terms (home away : option string) (pf : Z)
    (temp_c wind_kmh : option R) (st : state) :
  mlb_predict home away pf temp_c wind_kmh st =
  (Ok (win_prob (rating st ("MLB:" +:+ py_str home) + 30
                 + IZR (pf - 100) * 0.2
                 + match temp_c with Some t => (t - 20) * 0.5 | None => 0 end
                 + match wind_kmh with
                   | Some x => if Rlt_dec 30 x then 3 else 0
                   | None => 0
                   end
                 - rating st ("MLB:" +:+ py_str away))),
   touch ("MLB:" +:+ py_str away) (touch ("MLB:" +:+ py_str home) st)).
Proof. apply mlb_predict_run. Qed.

(** Scenario 2 of the specification: a park factor of 118 adds 3.6. *)
Example mlb_park_term_118 : mlb_park_term 118 = 3.6%R.
Proof. unfold mlb_park_term. change (118 - 100)%Z with 18%Z. lra. Qed.

Lemma spec_weather_nonneg (outdoor : bool) (temp_c wind_kmh precip_prob : option R) :
  (0 <= spec_weather outdoor temp_c wind_kmh precip_prob)%R.
Proof.
  unfold spec_weather, spec_wind_bonus, spec_temp_bonus, spec_precip_bonus.
  destruct outdoor; [| lra].
  destruct wind_kmh, temp_c, precip_prob;
    repeat match goal with
           | |- context [Rle_dec ?x ?y] => destruct (Rle_dec x y)
           end; lra.
Qed.

(** X12: a home team rated at least as high as the visitor and rested
    at least as long is always the pick of [nfl_predict], with a
    probability above one half, whatever the venue and the weather. *)
Theorem nfl_home_pick (home away : option string) (outdoor : bool)
    (temp_c wind_kmh precip_prob : option R) (rest_home rest_away : Z) (st : state) :
  (rating st ("NFL:" +:+ py_str away) <= rating st ("NFL:" +:+ py_str home))%R ->
  (rest_away <= rest_home)%Z ->
  exists ph st',
    nfl_predict home away outdoor temp_c wind_kmh precip_prob rest_home rest_away st
    = (Ok ph, st')
    /\ (0.5 < ph)%R /\ pick_of ph home away = home.
Proof.
  intros Hr Hrest. rewrite nfl_predict_run. do 2 eexists.
  split; [reflexivity |].
  set (d := (_ - _)%R).
  assert (Hd : (0 < d)%R).
  { subst d. pose proof (spec_weather_nonneg outdoor temp_c wind_kmh precip_prob).
    assert (0 <= IZR (rest_home - rest_away))%R by (apply IZR_le; lia). nra. }
  pose proof (win_prob_mono 0 d Hd) as Hw. rewrite win_prob_0 in Hw.
  split; [done |]. unfold pick_of. destruct (Rge_dec _ _); [done | lra].
Qed.

Lemma nfl_home_pick_example :
  exists ph st',
    nfl_predict (Some "Green Bay Packers") (Some "Chicago Bears") true
      (Some 2%R) (Some 40%R) None 7 7 fresh_state
    = (Ok ph, st')
    /\ (0.5 < ph)%R
    /\ pick_of ph (Some "Green Bay Packers") (Some "Chicago Bears")
       = Some "Green Bay Packers".
Proof.
  apply (nfl_home_pick (Some "Green Bay Packers") (Some "Chicago Bears") true
           (Some 2%R) (Some 40%R) None 7 7 fresh_state).
  - unfold rating, fresh_state. simpl. rewrite !lookup_empty. simpl. lra.
  - lia.
Defined.

(** X13: two fighters that stand for the same rating, in particular two
    never seen before, get exactly one half from [ufc_predict], and the
    pick is the first of the two. *)
Theorem ufc_even_match (fa fb : string) (st : state) :
  rating st ("UFC:" +:+ fa) = rating st ("UFC:" +:+ fb) ->
  exists st',
    ufc_predict fa fb st = (Ok 0.5%R, st')
    /\ pick_of 0.5%R fa fb = fa.
Proof.
  intros Heq. rewrite ufc_predict_run. eexists. split.
  - rewrite Heq. replace (_ - _)%R with 0%R by lra. by rewrite win_prob_0.
  - unfold pick_of. destruct (Rge_dec _ _); [done | lra].
Qed.

Lemma ufc_even_match_example :
  exists st',
    ufc_predict "Fighter A" "Fighter B" fresh_state = (Ok 0.5%R, st')
    /\ pick_of 0.5%R "Fighter A" "Fighter B" = "Fighter A".
Proof.
  apply (ufc_even_match "Fighter A" "Fighter B" fresh_state).
  unfold rating, fresh_state. simpl. by rewrite !lookup_empty.
Defined.

(** ** Feature extraction *)

Lemma dict_get_in {V} (d : list (string * V)) (k : string) (v : V) :
  dict_get d k = Some v -> In (k, v) d.
Proof.
  unfold dict_get. destruct (List.find _ d) as [[k' v']|] eqn:E; [| done].
  simpl. intros [= <-]. apply find_some in E as [Hin Heq].
  simpl in Heq. apply String.eqb_eq in Heq. by subst.
Qed.

Lemma park_factor_bounds (home : option string) :
  (95 <= default 100 ((home ≫= dict_get TEAM_PARK) ≫= dict_get MLB_PARK_FACTORS) <= 118)%Z.
Proof.
  destruct home as [h|]; [| simpl; lia]. simpl.
  destruct (dict_get TEAM_PARK h) as [park|] eqn:E; [| simpl; lia].
  apply dict_get_in in E. simpl in E.
  repeat (destruct E as [[= <- <-] | E]; [vm_compute; split; discriminate |]).
  destruct E.
Qed.

Section FeatureFacts.
Variable w : world.

(** X14: an event without [commence_time] makes each of the three feature
    functions, and so each block renderer, end with [AttributeError],
    while the today-filter leaves such an event out and returns. *)
Theorem features_need_timestamp (g : item) (st : state) :
  commence_time g = None ->
  mlb_features w g st = (Raise AttributeError, st)
  /\ nfl_features w g st = (Raise AttributeError, st)
  /\ ufc_features w g st = (Raise AttributeError, st)
  /\ block_mlb w [g] st = (Raise AttributeError, st)
  /\ block_nfl w [g] st = (Raise AttributeError, st)
  /\ block_ufc w [g] st = (Raise AttributeError, st)
  /\ filter_today w [g] = Ok [].
Proof.
  intros Hnone.
  assert (Hm : mlb_features w g st = (Raise AttributeError, st))
    by (unfold mlb_features, mbind, M_bind, lift; by rewrite Hnone).
  assert (Hn : nfl_features w g st = (Raise AttributeError, st))
    by (unfold nfl_features, mbind, M_bind, lift; by rewrite Hnone).
  assert (Hu : ufc_features w g st = (Raise AttributeError, st)).
  { unfold ufc_features. destruct (teams g) as [| t0 [| t1 ts]];
      unfold mbind, M_bind, lift; by rewrite Hnone. }
  repeat split; try done.
  - unfold block_mlb, mlb_line. simpl. unfold mbind, M_bind. by rewrite Hm.
  - unfold block_nfl, nfl_line. simpl. unfold mbind, M_bind. by rewrite Hn.
  - unfold block_ufc, ufc_line. simpl. unfold mbind, M_bind. by rewrite Hu.
  - unfold filter_today. destruct (local_date_bounds w). simpl. by rewrite Hnone.
Qed.

(** X15: [nfl_features] asks the weather service only for an outdoor
    stadium: at a venue that is unknown or not flagged outdoor the three
    weather values are absent, whatever the service would answer. *)
Theorem nfl_features_weather_only_outdoor (game : item) (st : state) :
  match nfl_features w game st with
  | (Ok (home, away, dt, stadium, out, t, wd, p, rest_home, rest_away), _) =>
      stadium = home_team game ≫= dict_get TEAM_STADIUM
      /\ out = default false (stadium ≫= dict_get NFL_OUTDOOR_STADIA)
      /\ (out = true \/ (t = None /\ wd = None /\ p = None))
  | (Raise _, _) => True
  end.
Proof.
  unfold nfl_features, mbind, M_bind, lift.
  destruct (parse_commence w (commence_time game)) as [dt|e]; [| done].
  destruct (default false _) eqn:Hout.
  - destruct (match _ with Some (lat, lon) => _ | None => _ end) as [[t wd] p].
    simpl. by repeat split; [| left].
  - simpl. by repeat split; [| right].
Qed.

(** X16: the park factor [mlb_features] returns is always between 95 and
    118, and for a home team without a known park it is 100 and no
    weather is looked up. *)
Theorem mlb_features_park_factor (game : item) (st : state) :
  match mlb_features w game st with
  | (Ok (home, away, dt, pf, t, wd), _) =>
      (95 <= pf <= 118)%Z
      /\ (is_Some (home_team game ≫= dict_get TEAM_PARK)
          \/ (pf = 100%Z /\ t = None /\ wd = None))
  | (Raise _, _) => True
  end.
Proof.
  pose proof (park_factor_bounds (home_team game)) as Hb.
  unfold mlb_features, lift. unfold mbind, M_bind in *.
  destruct (parse_commence w (commence_time game)) as [dt|e]; [| done].
  destruct (option_bind _ _ (dict_get TEAM_PARK) _) as [park|] eqn:Hp.
  - destruct (match _ with Some (lat, lon) => _ | None => _ end) as [[t wd] p].
    unfold mret, M_ret. cbv beta iota. split; [exact Hb | left; eauto].
  - unfold mret, M_ret. cbv beta iota. split; [exact Hb | by right].
Qed.
End FeatureFacts.

Lemma features_need_timestamp_example :
  let g := mkItem (Some "Home") (Some "Away") None [] in
  mlb_features quiet_world g fresh_state = (Raise AttributeError, fresh_state)
  /\ nfl_features quiet_world g fresh_state = (Raise AttributeError, fresh_state)
  /\ ufc_features quiet_world g fresh_state = (Raise AttributeError, fresh_state)
  /\ block_mlb quiet_world [g] fresh_state = (Raise AttributeError, fresh_state)
  /\ block_nfl quiet_world [g] fresh_state = (Raise AttributeError, fresh_state)
  /\ block_ufc quiet_world [g] fresh_state = (Raise AttributeError, fresh_state)
  /\ filter_today quiet_world [g] = Ok [].
Proof.
  apply (features_need_timestamp quiet_world
           (mkItem (Some "Home") (Some "Away") None []) fresh_state).
  reflexivity.
Defined.

(** ** What the slate never does to the state *)

Lemma extends_refl (st : state) : extends st st.
Proof. repeat split; try done. exists []. by rewrite app_nil_r. Qed.

Lemma extends_trans (st1 st2 st3 : state) :
  extends st1 st2 -> extends st2 st3 -> extends st1 st3.
Proof.
  intros (Hr1 & He1 & Hg1 & m1 & Hc1) (Hr2 & He2 & Hg2 & m2 & Hc2).
  repeat split.
  - congruence.
  - auto.
  - intros key. by rewrite Hg2.
  - exists (m1 ++ m2). by rewrite Hc2, Hc1, app_assoc.
Qed.

Lemma extends_touch (key : string) (st : state) : extends st (touch key st).
Proof.
  repeat split.
  - intros key' r H. unfold touch. simpl.
    destruct (decide (key = key')) as [->|Hne].
    + rewrite lookup_insert_eq. unfold rating. by rewrite H.
    + by rewrite lookup_insert_ne.
  - intros key'. apply rating_touch.
  - exists []. by rewrite app_nil_r.
Qed.

Lemma extends_push (st : state) (msg : string) : extends st (push_chat st msg).
Proof. repeat split; try done. by exists [msg]. Qed.

Lemma grows_ret {A} (a : A) : grows (mret a).
Proof. intros st. apply extends_refl. Qed.

Lemma grows_lift {A} (r : result A) : grows (lift r).
Proof. intros st. apply extends_refl. Qed.

Lemma grows_raise {A} (e : exn) : grows (@raise A e).
Proof. intros st. apply extends_refl. Qed.

Lemma grows_bind {A B} (c : M A) (k : A -> M B) :
  grows c -> (forall a, grows (k a)) -> grows (c ≫= k).
Proof.
  intros Hc Hk st. unfold mbind, M_bind. specialize (Hc st).
  destruct (c st) as [[a|e] st1]; simpl in *; [| done].
  eapply extends_trans; [exact Hc | apply Hk].
Qed.

Lemma grows_elo_get (key : string) : grows (elo_get key BASE).
Proof. intros st. rewrite elo_get_run. apply extends_touch. Qed.

Lemma grows_send (msg : string) : grows (send msg).
Proof. intros st. apply extends_push. Qed.

Create HintDb grows.
#[local] Hint Resolve grows_ret grows_lift grows_raise grows_elo_get grows_send : grows.

(** One step through the structure of a computation: a bind, a
    conditional, or a match on a value. *)
Ltac grows_step :=
  first
    [ solve [auto with grows]
    | apply grows_bind; [| intros ?]
    | match goal with
      | |- grows (if ?b then _ else _) => destruct b
      | |- grows (match ?x with _ => _ end) => destruct x
      | |- grows (let (_, _) := ?x in _) => destruct x
      end ].

Lemma grows_mlb_predict home away pf t wd : grows (mlb_predict home away pf t wd).
Proof.
  intros st. rewrite mlb_predict_run. simpl.
  eapply extends_trans; apply extends_touch.
Qed.

Lemma grows_nfl_predict home away out t wd p rh ra :
  grows (nfl_predict home away out t wd p rh ra).
Proof.
  intros st. rewrite nfl_predict_run. simpl.
  eapply extends_trans; apply extends_touch.
Qed.

Lemma grows_ufc_predict fa fb : grows (ufc_predict fa fb).
Proof.
  intros st. rewrite ufc_predict_run. simpl.
  eapply extends_trans; apply extends_touch.
Qed.

#[local] Hint Resolve grows_mlb_predict grows_nfl_predict grows_ufc_predict : grows.

Lemma grows_for_lines {A} (body : A -> M string) (l : list A) (lines : list string) :
  (forall x, grows (body x)) -> grows (for_lines body l lines).
Proof.
  intros Hbody. revert lines.
  induction l as [| x l IH]; intros lines; simpl; [apply grows_ret |].
  apply grows_bind; [apply Hbody | intros line; apply IH].
Qed.

Section Grows.
Variable w : world.

Lemma grows_mlb_line (g : item) : grows (mlb_line w g).
Proof. unfold mlb_line, mlb_features. repeat grows_step. Qed.

Lemma grows_nfl_line (g : item) : grows (nfl_line w g).
Proof. unfold nfl_line, nfl_features. repeat grows_step. Qed.

Lemma grows_ufc_line (g : item) : grows (ufc_line w g).
Proof. unfold ufc_line, ufc_features. repeat grows_step. Qed.

Lemma grows_block_mlb (l : list item) : grows (block_mlb w l).
Proof.
  unfold block_mlb. apply grows_bind; [| intros; apply grows_ret].
  apply grows_for_lines, grows_mlb_line.
Qed.

Lemma grows_block_nfl (l : list item) : grows (block_nfl w l).
Proof.
  unfold block_nfl. apply grows_bind; [| intros; apply grows_ret].
  apply grows_for_lines, grows_nfl_line.
Qed.

Lemma grows_block_ufc (l : list item) : grows (block_ufc w l).
Proof.
  unfold block_ufc. apply grows_bind; [| intros; apply grows_ret].
  apply grows_for_lines, grows_ufc_line.
Qed.

Lemma grows_get_today (lg : string) : grows (get_today_by_league w lg).
Proof. unfold get_today_by_league, odds_upcoming. repeat grows_step. Qed.

Lemma grows_send_all (msgs : list string) : grows (send_all msgs).
Proof.
  induction msgs as [| b msgs IH]; simpl; [apply grows_ret |].
  apply grows_bind; [apply grows_send | intros _; exact IH].
Qed.

#[local] Hint Resolve grows_block_mlb grows_block_nfl grows_block_ufc
  grows_get_today grows_send_all : grows.

Lemma grows_block_if_any (block : list item -> M string) (l : list item) :
  (forall l', grows (block l')) -> grows (block_if_any block l).
Proof.
  intros Hb. unfold block_if_any. destruct l; [apply grows_ret |].
  apply grows_bind; [apply Hb | intros; apply grows_ret].
Qed.

Lemma grows_cmd_today (args : list string) : grows (cmd_today w args).
Proof.
  unfold cmd_today. cbv zeta.
  repeat first [ apply grows_block_if_any; auto with grows | grows_step ].
Qed.

Lemma grows_post_leagues (lgs : list string) : grows (post_leagues w lgs).
Proof.
  induction lgs as [| lg lgs IH]; simpl; [apply grows_ret |].
  repeat first [ exact IH | grows_step ].
Qed.

Lemma grows_post_today : grows (post_today w).
Proof.
  unfold post_today.
  repeat first [ apply grows_post_leagues | grows_step ].
Qed.

(** X17: whatever [/today] and the daily post do, and also when they end
    with an exception, they leave the results table as it was, keep
    every stored rating at its value, give no key another rating (a new
    row holds the base rating), and only append to the chat. *)
Theorem commands_continue_state (args : list string) (st : state) :
  extends st (cmd_today w args st).2 /\ extends st (post_today w st).2.
Proof. split; [apply grows_cmd_today | apply grows_post_today]. Qed.
End Grows.

(** ** Blocks and the filter together *)

Lemma for_lines_ok {A} (body : A -> M string) (l : list A) (lines : list string)
    (st : state) :
  (forall x, In x l -> forall st0, exists line st', body x st0 = (Ok line, st')) ->
  exists new st',
    for_lines body l lines st = (Ok (lines ++ new), st') /\ length new = length l.
Proof.
  revert lines st.
  induction l as [| x l IH]; intros lines st Hbody; simpl.
  - exists [], st. by rewrite app_nil_r.
  - destruct (Hbody x (or_introl eq_refl) st) as (line & st1 & Hx).
    destruct (IH (lines ++ [line]) st1) as (new & st' & Hrun & Hlen).
    { intros y Hy. apply Hbody. by right. }
    exists (line :: new), st'. unfold mbind, M_bind. rewrite Hx, Hrun.
    rewrite <- app_assoc. simpl. by rewrite Hlen.
Qed.

Lemma bind_ok {A B} (c : M A) (k : A -> M B) (st : state) (a : A) (st1 : state) :
  c st = (Ok a, st1) -> (c ≫= k) st = k a st1.
Proof. intros H. unfold mbind, M_bind. by rewrite H. Qed.

Section BlockFacts.
Variable w : world.

Lemma mlb_line_ok (g : item) (st : state) :
  parses w g -> exists line st', mlb_line w g st = (Ok line, st').
Proof.
  intros [dt Hdt].
  assert (exists f, mlb_features w g st = (Ok f, st)) as [f Hf].
  { unfold mlb_features.
    rewrite (bind_ok _ _ st dt st) by (unfold lift; by rewrite Hdt).
    destruct (match _ with Some (lat, lon) => _ | None => _ end) as [[t wd] p].
    eauto. }
  unfold mlb_line. rewrite (bind_ok _ _ _ _ _ Hf).
  destruct f as [[[[[home away] dt'] pf] t] wd].
  rewrite (bind_ok _ _ _ _ _ (mlb_predict_run _ _ _ _ _ _)). eauto.
Qed.

Lemma nfl_line_ok (g : item) (st : state) :
  parses w g -> exists line st', nfl_line w g st = (Ok line, st').
Proof.
  intros [dt Hdt].
  assert (exists f, nfl_features w g st = (Ok f, st)) as [f Hf].
  { unfold nfl_features.
    rewrite (bind_ok _ _ st dt st) by (unfold lift; by rewrite Hdt).
    destruct (match _ with Some (lat, lon) => _ | None => _ end) as [[t wd] p].
    eauto. }
  unfold nfl_line. rewrite (bind_ok _ _ _ _ _ Hf).
  destruct f as [[[[[[[[[home away] dt'] stadium] out] t] wd] p] rh] ra].
  rewrite (bind_ok _ _ _ _ _ (nfl_predict_run _ _ _ _ _ _ _ _ _)). eauto.
Qed.

Lemma ufc_line_ok (e : item) (st : state) :
  parses w e -> exists line st', ufc_line w e st = (Ok line, st').
Proof.
  intros [dt Hdt].
  assert (exists f, ufc_features w e st = (Ok f, st)) as [f Hf].
  { unfold ufc_features.
    destruct (teams e) as [| t0 [| t1 ts]];
      rewrite (bind_ok _ _ st dt st) by (unfold lift; by rewrite Hdt); eauto. }
  unfold ufc_line. rewrite (bind_ok _ _ _ _ _ Hf).
  destruct f as [[a b] dt'].
  rewrite (bind_ok _ _ _ _ _ (ufc_predict_run _ _ _)). eauto.
Qed.

Lemma block_lines (body : item -> M string) (empty header : string)
    (l : list item) (st : state) :
  l ≠ [] ->
  (forall x, In x l -> forall st0, exists line st', body x st0 = (Ok line, st')) ->
  exists lines st',
    (lines ← for_lines body l [];
     mret (match lines with
           | [] => empty
           | _ => header +:+ NL +:+ String.concat NL lines
           end)) st
    = (Ok (header +:+ NL +:+ String.concat NL lines), st')
    /\ length lines = length l.
Proof.
  intros Hne Hbody.
  destruct (for_lines_ok body l [] st Hbody) as (lines & st' & Hrun & Hlen).
  exists lines, st'. unfold mbind, M_bind. rewrite Hrun. simpl.
  split; [| done].
  destruct lines as [| line lines]; [| done].
  destruct l; [done | discriminate Hlen].
Qed.

Lemma block_of_lines (lg : string) (l : list item) (st : state) :
  l ≠ [] -> Forall (parses w) l ->
  exists lines st',
    block_of w lg l st
    = (Ok (header_text lg +:+ NL +:+ String.concat NL lines), st')
    /\ length lines = length l.
Proof.
  intros Hne Hall. rewrite Forall_forall in Hall.
  unfold block_of, header_text.
  destruct (String.eqb lg "mlb"); [| destruct (String.eqb lg "nfl")].
  - apply block_lines; [done |]. intros x Hx st0.
    apply mlb_line_ok, Hall. by apply list_elem_of_In.
  - apply block_lines; [done |]. intros x Hx st0.
    apply nfl_line_ok, Hall. by apply list_elem_of_In.
  - apply block_lines; [done |]. intros x Hx st0.
    apply ufc_line_ok, Hall. by apply list_elem_of_In.
Qed.

(** The feature functions do not look at the state. *)
Lemma mlb_features_indep (g : item) (st st0 : state) :
  mlb_features w g st = ((mlb_features w g st0).1, st).
Proof.
  unfold mlb_features, mbind, M_bind, lift.
  destruct (parse_commence w (commence_time g)) as [dt|e]; [| done].
  by destruct (match _ with Some (lat, lon) => _ | None => _ end) as [[t wd] p].
Qed.

Lemma nfl_features_indep (g : item) (st st0 : state) :
  nfl_features w g st = ((nfl_features w g st0).1, st).
Proof.
  unfold nfl_features, mbind, M_bind, lift.
  destruct (parse_commence w (commence_time g)) as [dt|e]; [| done].
  by destruct (match _ with Some (lat, lon) => _ | None => _ end) as [[t wd] p].
Qed.

Lemma ufc_features_indep (g : item) (st st0 : state) :
  ufc_features w g st = ((ufc_features w g st0).1, st).
Proof.
  unfold ufc_features.
  destruct (teams g) as [| t0 [| t1 ts]]; unfold mbind, M_bind, lift;
    by destruct (parse_commence w (commence_time g)).
Qed.

(** The text of a line depends on the state only through the ratings. *)
Lemma line_of_ratings (lg : string) (g : item) (st1 st0 : state) :
  (forall key, rating st1 key = rating st0 key) ->
  (line_of w lg g st1).1 = (line_of w lg g st0).1.
Proof.
  intros Hrat. unfold line_of.
  destruct (String.eqb lg "mlb"); [| destruct (String.eqb lg "nfl")].
  - unfold mlb_line. unfold mbind at 1 3, M_bind.
    rewrite (mlb_features_indep g st1 st0), (mlb_features_indep g st0 st0).
    cbn [fst snd].
    destruct (mlb_features w g st0).1 as [[[[[[home away] dt] pf] t] wd] | e];
      [| done].
    unfold mbind, M_bind. rewrite !mlb_predict_run. cbn [fst snd]. by rewrite !Hrat.
  - unfold nfl_line. unfold mbind at 1 3, M_bind.
    rewrite (nfl_features_indep g st1 st0), (nfl_features_indep g st0 st0).
    cbn [fst snd].
    destruct (nfl_features w g st0).1
      as [[[[[[[[[[home away] dt] stadium] out] t] wd] p] rh] ra] | e]; [| done].
    unfold mbind, M_bind. rewrite !nfl_predict_run. cbn [fst snd]. by rewrite !Hrat.
  - unfold ufc_line. unfold mbind at 1 3, M_bind.
    rewrite (ufc_features_indep g st1 st0), (ufc_features_indep g st0 st0).
    cbn [fst snd].
    destruct (ufc_features w g st0).1 as [[[a b] dt] | e]; [| done].
    unfold mbind, M_bind. rewrite !ufc_predict_run. cbn [fst snd]. by rewrite !Hrat.
Qed.

Lemma line_of_ok (lg : string) (g : item) (st : state) :
  parses w g -> exists line st', line_of w lg g st = (Ok line, st').
Proof.
  intros Hp. unfold line_of.
  destruct (String.eqb lg "mlb"); [| destruct (String.eqb lg "nfl")].
  - by apply mlb_line_ok.
  - by apply nfl_line_ok.
  - by apply ufc_line_ok.
Qed.

Lemma line_of_rating (lg : string) (g : item) (st : state) (key : string) :
  rating (line_of w lg g st).2 key = rating st key.
Proof.
  unfold line_of.
  destruct (String.eqb lg "mlb"); [| destruct (String.eqb lg "nfl")].
  - apply (grows_mlb_line w g st).
  - apply (grows_nfl_line w g st).
  - apply (grows_ufc_line w g st).
Qed.

(** The loop over parseable events collects, for each event in turn, the
    text its line has at the ratings the loop started with. *)
Lemma for_lines_texts (lg : string) (st : state) (l : list item)
    (lines : list string) (st0 : state) :
  Forall (parses w) l ->
  (forall key, rating st0 key = rating st key) ->
  exists st',
    for_lines (line_of w lg) l lines st0
    = (Ok (lines ++ map (line_text w lg st) l), st').
Proof.
  intros Hall. revert lines st0.
  induction Hall as [| g l Hg _ IH]; intros lines st0 Hrat; simpl.
  - exists st0. by rewrite app_nil_r.
  - destruct (line_of_ok lg g st0 Hg) as (line & st1 & Hline).
    assert (Htext : line_text w lg st g = line).
    { unfold line_text. rewrite <- (line_of_ratings lg g st0 st Hrat).
      by rewrite Hline. }
    destruct (IH (lines ++ [line]) st1) as [st' Hrun].
    { intros key. rewrite <- Hrat.
      pose proof (line_of_rating lg g st0 key) as H. by rewrite Hline in H. }
    exists st'. rewrite (bind_ok _ _ _ _ _ Hline), Hrun, Htext.
    by rewrite <- app_assoc.
Qed.

Lemma block_of_line_of (lg : string) (l : list item) :
  block_of w lg l
  = (lines ← for_lines (line_of w lg) l [];
     mret (match lines with
           | [] => no_events_text lg
           | _ => header_text lg +:+ NL +:+ String.concat NL lines
           end)).
Proof.
  unfold block_of, line_of, no_events_text, header_text.
  destruct (String.eqb lg "mlb"); [done |].
  by destruct (String.eqb lg "nfl").
Qed.

Lemma renderable_parses (it : item) : renderable w it -> parses w it.
Proof. intros (dt & Hp & _). by exists dt. Qed.

(** X18: on a non-empty list of events whose timestamps parse to an
    instant that, with the hour after it, lies within the range of
    [datetime], a block renderer returns the header of its league and
    then, joined by newlines, one line per event in input order: the text
    the line renderer gives for that event alone at the ratings the block
    started with. *)
Theorem block_one_line_per_event (lg : string) (l : list item) (st : state) :
  l ≠ [] -> Forall (renderable w) l ->
  exists st',
    block_of w lg l st
    = (Ok (header_text lg +:+ NL
           +:+ String.concat NL (map (line_text w lg st) l)), st').
Proof.
  intros Hne Hall.
  assert (Hp : Forall (parses w) l)
    by (eapply Forall_impl; [exact Hall | apply renderable_parses]).
  destruct (for_lines_texts lg st l [] st Hp) as [st' Hrun]; [done |].
  exists st'. rewrite block_of_line_of. rewrite (bind_ok _ _ _ _ _ Hrun).
  destruct l as [| g l']; [done |]. reflexivity.
Qed.

Lemma readable_cases (it : item) :
  readable w it \/ exists x, fails_with w it x.
Proof.
  unfold readable, fails_with, start_instant, parse_commence, str_truthy.
  destruct (commence_time it) as [iso|]; [| left; discriminate].
  destruct (String.eqb iso EmptyString); simpl; [left; discriminate |].
  destruct (fromisoformat w (replace_Z iso)) as [dt|].
  - destruct (in_datetime_range dt) eqn:Hr; [left; eauto |].
    right. exists OverflowError. split; [done |]. right. by exists dt.
  - right. exists ValueError. split; [done |]. by left.
Qed.

Lemma fails_with_not_readable (it : item) (x : exn) :
  fails_with w it x -> ~ readable w it.
Proof.
  unfold readable, fails_with, start_instant, parse_commence, str_truthy.
  destruct (commence_time it) as [iso|]; [| by intros [? _]].
  destruct (String.eqb iso EmptyString); simpl; [by intros [? _] |].
  destruct (fromisoformat w (replace_Z iso)) as [dt|].
  - intros [_ [[? _] | (dt' & [= <-] & Hr & _)]]; [done |].
    rewrite Hr. intros H. by destruct (H eq_refl).
  - intros _ H. by destruct (H eq_refl).
Qed.

Lemma fails_with_raise (it : item) (x : exn) :
  fails_with w it x ->
  parse_commence w (commence_time it) = Raise x
  \/ (exists dt, parse_commence w (commence_time it) = Ok dt
                 /\ shift_to_utc dt = Raise x).
Proof.
  intros [_ [[Hp ->] | (dt & Hp & Hr & ->)]]; [by left |].
  right. exists dt. split; [done |]. unfold shift_to_utc. by rewrite Hr.
Qed.

(** A list holds only readable events, or a first event that fails. *)
Lemma first_unreadable (items : list item) :
  Forall (readable w) items
  \/ exists pre bad post x,
       items = pre ++ bad :: post /\ Forall (readable w) pre
       /\ fails_with w bad x.
Proof.
  induction items as [| it items IH]; [by left |].
  destruct (readable_cases it) as [Hit | [x Hx]].
  - destruct IH as [Hall | (pre & bad & post & x & -> & Hpre & Hbad)].
    + left. by constructor.
    + right. exists (it :: pre), bad, post, x. repeat split; try tauto.
      * by constructor.
      * apply Hbad.
      * apply Hbad.
  - right. by exists [], it, items, x.
Qed.

Lemma filter_today_cases (items : list item) :
  (Forall (readable w) items
   /\ filter_today w items = Ok (sort_by sort_key (todays w items)))
  \/ exists x, filter_today w items = Raise x.
Proof.
  destruct (first_unreadable items)
    as [Hall | (pre & bad & post & x & -> & Hpre & Hbad)].
  - left. split; [done | by apply filter_today_readable].
  - right. exists x. apply filter_today_fails; [done | apply Hbad |].
    by apply fails_with_raise.
Qed.

Lemma todays_parses (items : list item) (it : item) :
  In it (todays w items) -> parses w it.
Proof.
  rewrite in_todays. intros [_ (dt & Hdt & _)].
  apply start_instant_parse in Hdt as [_ Hp]. by exists dt.
Qed.

(** X19: the filter returns a list exactly when every event that has a
    timestamp has one that parses to an instant within the range of
    [datetime]; otherwise it ends with the exception of the first event
    that fails: [ValueError] when its timestamp does not parse,
    [OverflowError] when it parses to an instant outside that range. *)
Theorem filter_today_returns_iff (items : list item) :
  (Forall (readable w) items
   /\ exists out, filter_today w items = Ok out)
  \/ (~ Forall (readable w) items
      /\ exists pre bad post x,
           items = pre ++ bad :: post /\ Forall (readable w) pre
           /\ fails_with w bad x
           /\ filter_today w items = Raise x).
Proof.
  destruct (first_unreadable items)
    as [Hall | (pre & bad & post & x & -> & Hpre & Hbad)].
  - left. split; [done |]. eexists. by apply filter_today_readable.
  - right. split.
    + intros Hall. apply Forall_app in Hall as [_ Hall].
      apply Forall_cons in Hall as [Hb _].
      by apply (fails_with_not_readable bad x).
    + exists pre, bad, post, x. repeat split; try done; try apply Hbad.
      apply filter_today_fails; [done | apply Hbad |].
      by apply fails_with_raise.
Qed.

Lemma sort_by_sorted_id {A} (key : A -> string) (l : list A) :
  StronglySorted (key_le key) l -> sort_by key l = l.
Proof.
  induction 1 as [| x l Hs IH Hx]; [done |].
  simpl. rewrite IH. destruct l as [| y l']; [done |].
  simpl. apply Forall_cons in Hx as [Hxy _]. unfold key_le in Hxy. by rewrite Hxy.
Qed.

(** X20: filtering the output of the filter again, at the same clock,
    gives the same list: nothing more is dropped and nothing is
    reordered. *)
Theorem filter_today_idempotent (items out : list item) :
  filter_today w items = Ok out -> filter_today w out = Ok out.
Proof.
  intros Hout.
  destruct (filter_today_cases items) as [[Hall Hok] | [x Hr]]; [| congruence].
  rewrite Hok in Hout. injection Hout as <-.
  set (out := sort_by sort_key (todays w items)).
  assert (Hin : forall it, In it out -> In it (todays w items)).
  { intros it. apply Permutation_in, sort_by_perm. }
  assert (Hread : Forall (readable w) out).
  { apply List.Forall_forall. intros it Hit. apply Hin in Hit.
    unfold todays in Hit. apply filter_In in Hit as [Hit _].
    by apply (proj1 (List.Forall_forall _ _) Hall). }
  rewrite filter_today_readable by done.
  assert (Hkeep : todays w out = out).
  { unfold todays. apply forallb_filter_id, forallb_forall.
    intros it Hit. apply Hin in Hit. unfold todays in Hit.
    by apply filter_In in Hit as [_ Hit]. }
  rewrite Hkeep. f_equal. apply sort_by_sorted_id, sort_by_sorted.
Qed.

(** X21: a list that came out of the filter always renders: every block
    renderer returns a text for it, without exception. *)
Theorem filter_then_block (lg : string) (items out : list item) (st : state) :
  filter_today w items = Ok out ->
  exists text st', block_of w lg out st = (Ok text, st').
Proof.
  intros Hout.
  destruct (filter_today_cases items) as [[Hall Hok] | [x Hr]]; [| congruence].
  rewrite Hok in Hout. injection Hout as <-.
  set (out := sort_by sort_key (todays w items)).
  destruct out as [| it out'] eqn:Eout.
  - rewrite block_of_nil. eauto.
  - rewrite <- Eout.
    destruct (block_of_lines lg out st) as (lines & st' & Hb & _).
    + subst out. by rewrite Eout.
    + apply Forall_forall. intros x Hx. apply list_elem_of_In in Hx.
      apply (todays_parses items). revert Hx. apply Permutation_in, sort_by_perm.
    + eauto.
Qed.

(** X22: in a time zone with one fixed offset the window of the filter
    is exactly one day long and contains the instant of the clock. *)
Theorem today_window_fixed_offset (off : Z) :
  (forall t, utcoffset_at w t = off) -> (forall t, utcoffset_wall w t = off) ->
  (today_start w <= now w < today_end w)%Z
  /\ (today_end w - today_start w = DAY)%Z.
Proof.
  intros Hat Hwall.
  pose proof (local_date_bounds_midnight w) as Hm. cbv zeta in Hm.
  unfold today_start, today_end, astimezone_utc.
  destruct (local_date_bounds w) as [start_l end_l]. simpl.
  rewrite !Hwall. rewrite Hat in Hm. lia.
Qed.
End BlockFacts.

Lemma block_one_line_per_event_example :
  exists st',
    block_of quiet_world "ufc" mixed_offsets fresh_state
    = (Ok (header_text "ufc" +:+ NL
           +:+ String.concat NL (map (line_text quiet_world "ufc" fresh_state)
                                     mixed_offsets)), st').
Proof.
  apply (block_one_line_per_event quiet_world "ufc" mixed_offsets fresh_state).
  - discriminate.
  - unfold mixed_offsets.
    apply List.Forall_cons; [| apply List.Forall_cons; [| apply List.Forall_nil]].
    + exists 1704096000000000%Z. vm_compute. tauto.
    + exists 1704099600000000%Z. vm_compute. tauto.
Defined.

(** An event whose timestamp parses to an instant outside the range of
    [datetime] ends the filter with [OverflowError]. *)
Example filter_today_overflow :
  filter_today early_world [ event_at "0001-01-01T00:00:00+14:00" ]
  = Raise OverflowError.
Proof. by vm_compute. Qed.

Lemma filter_today_idempotent_example :
  filter_today quiet_world
    [ event_at "2023-12-31T23:00:00Z"; event_at "2024-01-01T22:59:59Z" ]
  = Ok [ event_at "2023-12-31T23:00:00Z"; event_at "2024-01-01T22:59:59Z" ].
Proof.
  apply (filter_today_idempotent quiet_world boundary_events).
  vm_compute. reflexivity.
Defined.

Lemma filter_then_block_example :
  exists text st',
    block_of quiet_world "mlb"
      [ event_at "2023-12-31T23:00:00Z"; event_at "2024-01-01T22:59:59Z" ] fresh_state
    = (Ok text, st').
Proof.
  apply (filter_then_block quiet_world "mlb" boundary_events).
  vm_compute. reflexivity.
Defined.

Lemma today_window_fixed_offset_example :
  (today_start quiet_world <= now quiet_world < today_end quiet_world)%Z
  /\ (today_end quiet_world - today_start quiet_world = DAY)%Z.
Proof.
  apply (today_window_fixed_offset quiet_world 3600000000); reflexivity.
Defined.

(** ** What [/today all] sends *)

Lemma silent_ret {A} (a : A) : silent (mret a).
Proof. by intros st. Qed.

Lemma silent_lift {A} (r : result A) : silent (lift r).
Proof. by intros st. Qed.

Lemma silent_raise {A} (e : exn) : silent (@raise A e).
Proof. by intros st. Qed.

Lemma silent_bind {A B} (c : M A) (k : A -> M B) :
  silent c -> (forall a, silent (k a)) -> silent (c ≫= k).
Proof.
  intros Hc Hk st. unfold mbind, M_bind. specialize (Hc st).
  destruct (c st) as [[a|e] st1]; simpl in *; [| done].
  by rewrite Hk.
Qed.

Lemma silent_elo_get (key : string) : silent (elo_get key BASE).
Proof. intros st. by rewrite elo_get_run. Qed.

Lemma silent_mlb_predict home away pf t wd : silent (mlb_predict home away pf t wd).
Proof. intros st. by rewrite mlb_predict_run. Qed.

Lemma silent_nfl_predict home away out t wd p rh ra :
  silent (nfl_predict home away out t wd p rh ra).
Proof. intros st. by rewrite nfl_predict_run. Qed.

Lemma silent_ufc_predict fa fb : silent (ufc_predict fa fb).
Proof. intros st. by rewrite ufc_predict_run. Qed.

Create HintDb silent.
#[local] Hint Resolve silent_ret silent_lift silent_raise silent_elo_get
  silent_mlb_predict silent_nfl_predict silent_ufc_predict : silent.

Ltac silent_step :=
  first
    [ solve [auto with silent]
    | apply silent_bind; [| intros ?]
    | match goal with
      | |- silent (if ?b then _ else _) => destruct b
      | |- silent (match ?x with _ => _ end) => destruct x
      | |- silent (let (_, _) := ?x in _) => destruct x
      end ].

Lemma silent_for_lines {A} (body : A -> M string) (l : list A) (lines : list string) :
  (forall x, silent (body x)) -> silent (for_lines body l lines).
Proof.
  intros Hbody. revert lines.
  induction l as [| x l IH]; intros lines; simpl; [apply silent_ret |].
  apply silent_bind; [apply Hbody | intros line; apply IH].
Qed.

(** The loop adds one line per element to the lines it was given. *)
Lemma for_lines_length {A} (body : A -> M string) (l : list A)
    (lines out : list string) (st st' : state) :
  for_lines body l lines st = (Ok out, st') ->
  length out = (length lines + length l)%nat.
Proof.
  revert lines st. induction l as [| x l IH]; intros lines st; simpl.
  - intros [= <- _]. lia.
  - unfold mbind, M_bind. destruct (body x st) as [[line|e] st1]; [| done].
    intros H. apply IH in H. rewrite length_app in H. simpl in H. lia.
Qed.

Lemma send_all_run (msgs : list string) (st : state) :
  exists st', send_all msgs st = (Ok tt, st') /\ chat st' = chat st ++ msgs.
Proof.
  revert st. induction msgs as [| b msgs IH]; intros st; simpl.
  - exists st. by rewrite app_nil_r.
  - unfold mbind, M_bind, send.
    destruct (IH (push_chat st b)) as (st' & Hrun & Hchat).
    exists st'. split; [done |]. rewrite Hchat. simpl. by rewrite <- app_assoc.
Qed.

Section AllFacts.
Variable w : world.

Lemma silent_line_of (lg : string) (g : item) : silent (line_of w lg g).
Proof.
  unfold line_of.
  destruct (String.eqb lg "mlb"); [| destruct (String.eqb lg "nfl")];
    unfold mlb_line, nfl_line, ufc_line, mlb_features, nfl_features, ufc_features;
    repeat silent_step.
Qed.

(** A block sends nothing, and on a list that is not empty its text opens
    with the header of the league. *)
Lemma block_of_shape (lg : string) (l : list item) (st : state) :
  chat (block_of w lg l st).2 = chat st
  /\ (forall text, (block_of w lg l st).1 = Ok text -> l ≠ [] ->
        exists rest, text = header_text lg +:+ NL +:+ rest).
Proof.
  rewrite block_of_line_of. unfold mbind, M_bind.
  pose proof (silent_for_lines (line_of w lg) l [] (silent_line_of lg) st) as Hs.
  destruct (for_lines (line_of w lg) l [] st) as [[lines|e] st1] eqn:E;
    simpl in *; [| done].
  split; [done |]. intros text [= <-] Hne.
  apply for_lines_length in E. simpl in E.
  destruct lines as [| line lines]; [destruct l; [done | discriminate E] |].
  by eexists.
Qed.

Lemma get_today_state (lg : string) (st : state) :
  (get_today_by_league w lg st).2 = st.
Proof.
  unfold get_today_by_league, odds_upcoming, raise.
  destruct (dict_get SPORT_KEYS lg) as [key|]; [| done].
  unfold mbind, M_bind, lift.
  destruct (str_truthy (ODDS_API_KEY w)); simpl; [| done].
  by destruct (odds_api_get w key).
Qed.
End AllFacts.

Section AllBranch.
Variable w : world.

Lemma block_item_good (lg lg' : string) (l : list item) (st : state) :
  In lg leagues -> In lg' leagues -> (lg' = lg -> l = []) ->
  chat (block_if_any (block_of w lg') l st).2 = chat st
  /\ (forall bs, (block_if_any (block_of w lg') l st).1 = Ok bs ->
        Forall (fun text => text ≠ no_events_text lg
                            /\ String.prefix (header_text lg) text = false) bs).
Proof.
  intros Hlg Hlg' Hempty. unfold block_if_any.
  destruct l as [| x l]; [split; [done |]; by intros bs [= <-] |].
  destruct (block_of_shape w lg' (x :: l) st) as [Hchat Htext].
  unfold mbind, M_bind.
  destruct (block_of w lg' (x :: l) st) as [[text|e] st1]; simpl in *; [| done].
  split; [done |]. intros bs [= <-].
  destruct (Htext text eq_refl ltac:(done)) as [rest ->].
  constructor; [| constructor].
  assert (Hne : lg' ≠ lg) by (intros ->; by specialize (Hempty eq_refl)).
  destruct Hlg as [<- | [<- | [<- | []]]], Hlg' as [<- | [<- | [<- | []]]];
    try done; by split.
Qed.

Lemma generic_line_good (lg : string) (date : string) :
  In lg leagues ->
  "No events today (" +:+ date +:+ ")." ≠ no_events_text lg
  /\ String.prefix (header_text lg) ("No events today (" +:+ date +:+ ").") = false.
Proof. intros [<- | [<- | [<- | []]]]; by split. Qed.

(** Under [/today all] every message sent is neither the no-events text
    nor a block of a league whose list is empty. *)
Lemma cmd_today_all_msgs (lg : string) (st : state) :
  str_truthy (ODDS_API_KEY w) = true ->
  In lg leagues ->
  get_today_by_league w lg st = (Ok [], st) ->
  exists msgs,
    chat (cmd_today w ["all"] st).2 = chat st ++ msgs
    /\ Forall (fun text => text ≠ no_events_text lg
                           /\ String.prefix (header_text lg) text = false) msgs.
Proof.
  intros Hkey Hlg Hget. unfold cmd_today. rewrite Hkey. cbv zeta.
  change (lower <$> ["all"]) with ["all"]. cbn [negb].
  change (String.eqb "all" "all") with true. cbv iota.
  assert (Hquiet : exists msgs : list string,
             chat st = chat st ++ msgs
             /\ Forall (fun text => text ≠ no_events_text lg
                                    /\ String.prefix (header_text lg) text = false)
                  msgs).
  { exists []. by rewrite app_nil_r. }
  unfold mbind at 1, M_bind at 1.
  unfold mbind at 1, M_bind at 1.
  pose proof (get_today_state w "mlb" st) as Sm.
  destruct (get_today_by_league w "mlb" st) as [[m|e] s] eqn:Em;
    simpl in Sm; subst s; [| exact Hquiet].
  unfold mbind at 1, M_bind at 1.
  pose proof (get_today_state w "nfl" st) as Sn.
  destruct (get_today_by_league w "nfl" st) as [[n|e] s] eqn:En;
    simpl in Sn; subst s; [| exact Hquiet].
  unfold mbind at 1, M_bind at 1.
  pose proof (get_today_state w "ufc" st) as Su.
  destruct (get_today_by_league w "ufc" st) as [[u|e] s] eqn:Eu;
    simpl in Su; subst s; [| exact Hquiet].
  assert (Hm : "mlb" = lg -> m = []) by (intros <-; congruence).
  assert (Hn : "nfl" = lg -> n = []) by (intros <-; congruence).
  assert (Hu : "ufc" = lg -> u = []) by (intros <-; congruence).
  change (block_mlb w) with (block_of w "mlb").
  change (block_nfl w) with (block_of w "nfl").
  change (block_ufc w) with (block_of w "ufc").
  unfold mbind at 1, M_bind at 1.
  destruct (block_item_good lg "mlb" m st Hlg ltac:(simpl; tauto) Hm) as [C1 G1].
  destruct (block_if_any (block_of w "mlb") m st) as [[b1|e] st1];
    simpl in C1; [| simpl; rewrite C1; exact Hquiet].
  unfold mbind at 1, M_bind at 1.
  destruct (block_item_good lg "nfl" n st1 Hlg ltac:(simpl; tauto) Hn) as [C2 G2].
  destruct (block_if_any (block_of w "nfl") n st1) as [[b2|e] st2];
    simpl in C2; [| simpl; rewrite C2, C1; exact Hquiet].
  unfold mbind at 1, M_bind at 1.
  destruct (block_item_good lg "ufc" u st2 Hlg ltac:(simpl; tauto) Hu) as [C3 G3].
  destruct (block_if_any (block_of w "ufc") u st2) as [[b3|e] st3];
    simpl in C3; [| simpl; rewrite C3, C2, C1; exact Hquiet].
  unfold mret at 1, M_ret at 1.
  assert (Hgood : Forall (fun text => text ≠ no_events_text lg
                                      /\ String.prefix (header_text lg) text = false)
                    (b1 ++ b2 ++ b3)).
  { rewrite !Forall_app. repeat split; [by apply G1 | by apply G2 | by apply G3]. }
  assert (Hc : chat st3 = chat st) by congruence.
  destruct (b1 ++ b2 ++ b3) as [| b bs].
  - exists ["No events today (" +:+ when w +:+ ")."]. simpl. rewrite Hc.
    split; [done |]. constructor; [| constructor]. by apply generic_line_good.
  - destruct (send_all_run (b :: bs) st3) as (st' & Hrun & Hchat).
    exists (b :: bs). rewrite Hrun. simpl. by rewrite Hchat, Hc.
Qed.

(** C9 (amended): each block renderer returns the no-events text of its
    sport on an empty list, and [/today <sport>] sends that text when the
    sport has no event today.  Under [/today all] such a sport gets no
    message: whatever the command sends, none of it is that text or a
    block with the header of the sport; and when all three sports have
    no event today the command sends the single line with the date. *)
Theorem empty_day_rendering (lg : string) (st : state) :
  str_truthy (ODDS_API_KEY w) = true ->
  In lg leagues ->
  get_today_by_league w lg st = (Ok [], st) ->
  block_of w lg [] st = (Ok (no_events_text lg), st)
  /\ cmd_today w [lg] st = (Ok tt, push_chat st (no_events_text lg))
  /\ (exists msgs,
        chat (cmd_today w ["all"] st).2 = chat st ++ msgs
        /\ Forall (fun text => text ≠ no_events_text lg
                               /\ String.prefix (header_text lg) text = false) msgs)
  /\ ((forall lg', In lg' leagues -> get_today_by_league w lg' st = (Ok [], st)) ->
      cmd_today w ["all"] st
      = (Ok tt, push_chat st ("No events today (" +:+ when w +:+ ")."))).
Proof.
  intros Hkey Hlg Hget.
  split; [apply block_of_nil |].
  split; [by apply cmd_today_one_empty |].
  split; [by apply cmd_today_all_msgs |].
  intros Hall. by apply cmd_today_all_empty.
Qed.
End AllBranch.

Lemma empty_day_rendering_example :
  block_of idle_world "nfl" [] fresh_state = (Ok (no_events_text "nfl"), fresh_state)
  /\ cmd_today idle_world ["nfl"] fresh_state
     = (Ok tt, push_chat fresh_state (no_events_text "nfl"))
  /\ (exists msgs,
        chat (cmd_today idle_world ["all"] fresh_state).2 = chat fresh_state ++ msgs
        /\ Forall (fun text => text ≠ no_events_text "nfl"
                               /\ String.prefix (header_text "nfl") text = false) msgs)
  /\ ((forall lg', In lg' leagues ->
         get_today_by_league idle_world lg' fresh_state = (Ok [], fresh_state)) ->
      cmd_today idle_world ["all"] fresh_state
      = (Ok tt, push_chat fresh_state
                  ("No events today (" +:+ when idle_world +:+ ")."))).
Proof.
  apply (empty_day_rendering idle_world "nfl" fresh_state).
  - reflexivity.
  - simpl. tauto.
  - vm_compute. reflexivity.
Defined.


(** ** The commands at their edges *)

Lemma lower_ascii_idem (c : ascii) : lower_ascii (lower_ascii c) = lower_ascii c.
Proof. destruct c as [[] [] [] [] [] [] [] []]; reflexivity. Qed.

Lemma lower_idem (s : string) : lower (lower s) = lower s.
Proof. induction s as [| c s IH]; simpl; [done |]. by rewrite lower_ascii_idem, IH. Qed.

Lemma not_league_no_key (a : string) :
  ~ In a leagues -> dict_get SPORT_KEYS a = None.
Proof.
  intros Hn. unfold dict_get, SPORT_KEYS. cbn [List.find fst].
  destruct (String.eqb_spec "mlb" a) as [<-|_]; [destruct Hn; simpl; tauto |].
  destruct (String.eqb_spec "nfl" a) as [<-|_]; [destruct Hn; simpl; tauto |].
  destruct (String.eqb_spec "ufc" a) as [<-|_]; [destruct Hn; simpl; tauto |].
  done.
Qed.

Section CommandFacts.
Variable w : world.

Lemma filter_today_nil : filter_today w [] = Ok [].
Proof. unfold filter_today. by destruct (local_date_bounds w). Qed.

Lemma league_key_value (lg : string) :
  In lg leagues ->
  dict_get SPORT_KEYS lg = Some (default EmptyString (dict_get SPORT_KEYS lg)).
Proof. by intros [<- | [<- | [<- | []]]]. Qed.

(** X23: without an API key [/today] answers every argument list with the
    one instruction line, the daily post sends its own instruction line
    (or nothing at all without a channel), and the list of each of the
    three leagues, like [odds_upcoming] for every sport key, is empty
    without any request to the schedule service. *)
Theorem without_api_key (args : list string) (lg sport_key : string) (st : state) :
  str_truthy (ODDS_API_KEY w) = false ->
  In lg leagues ->
  cmd_today w args st
  = (Ok tt, push_chat st "Set ODDS_API_KEY env var to fetch schedules.")
  /\ post_today w st
     = (Ok tt, if str_truthy (CHANNEL_ID w)
               then push_chat st "Set ODDS_API_KEY to fetch schedules."
               else st)
  /\ get_today_by_league w lg st = (Ok [], st)
  /\ odds_upcoming w sport_key st = (Ok [], st).
Proof.
  intros Hkey Hlg. repeat split.
  - unfold cmd_today. by rewrite Hkey.
  - unfold post_today. rewrite Hkey. by destruct (str_truthy (CHANNEL_ID w)).
  - unfold get_today_by_league. rewrite league_key_value by done. rewrite Hkey.
    rewrite (bind_ok _ _ st [] st) by done.
    unfold lift. by rewrite filter_today_nil.
  - unfold odds_upcoming. by rewrite Hkey.
Qed.

(** X24: with an API key, [/today] without argument answers with the
    usage line, and with a first argument that is, in lower case, neither
    all nor a league it answers with the list of choices; nothing else is
    sent and no list is fetched. *)
Theorem cmd_today_bad_arguments (a : string) (rest : list string) (st : state) :
  str_truthy (ODDS_API_KEY w) = true ->
  ~ In (lower a) ("all" :: leagues) ->
  cmd_today w [] st = (Ok tt, push_chat st "Usage: /today all|mlb|nfl|ufc")
  /\ cmd_today w (a :: rest) st = (Ok tt, push_chat st "Use: all|mlb|nfl|ufc").
Proof.
  intros Hkey Hno. unfold cmd_today. rewrite Hkey. cbv zeta.
  split; [done |].
  change (lower <$> a :: rest) with (lower a :: (lower <$> rest)).
  cbn [negb].
  destruct (String.eqb_spec (lower a) "all") as [Hall | _];
    [destruct Hno; by left |].
  rewrite not_league_no_key by (intros Hin; apply Hno; by right).
  reflexivity.
Qed.

(** X25: [/today] reads only its first argument, and reads it without
    regard to upper and lower case of ASCII letters. *)
Theorem cmd_today_first_argument (a : string) (rest : list string) (st : state) :
  cmd_today w (a :: rest) st = cmd_today w [lower a] st.
Proof.
  unfold cmd_today. cbv zeta.
  change (lower <$> a :: rest) with (lower a :: (lower <$> rest)).
  change (lower <$> [lower a]) with [lower (lower a)].
  by rewrite lower_idem.
Qed.

Lemma league_key (lg : string) : In lg leagues -> is_Some (dict_get SPORT_KEYS lg).
Proof. intros [<- | [<- | [<- | []]]]; by eexists. Qed.

(** X26: when the request for the schedule of a league fails, the list
    of that league and [/today <league>] end with the same exception, and
    no message is sent. *)
Theorem cmd_today_schedule_failure (lg : string) (e : exn) (st : state) :
  str_truthy (ODDS_API_KEY w) = true ->
  In lg leagues ->
  odds_api_get w (default EmptyString (dict_get SPORT_KEYS lg)) = Raise e ->
  get_today_by_league w lg st = (Raise e, st)
  /\ cmd_today w [lg] st = (Raise e, st).
Proof.
  intros Hkey Hlg Hfail.
  assert (Hget : get_today_by_league w lg st = (Raise e, st)).
  { unfold get_today_by_league, odds_upcoming.
    rewrite league_key_value by done. rewrite Hkey. cbn [negb].
    unfold mbind, M_bind, lift. by rewrite Hfail. }
  split; [done |].
  unfold cmd_today. rewrite Hkey. cbv zeta.
  change (lower <$> [lg]) with [lower lg]. rewrite lower_league by done.
  destruct Hlg as [<- | [<- | [<- | []]]];
    cbn -[get_today_by_league]; unfold mbind, M_bind; by rewrite Hget.
Qed.

(** X27: the daily post sends its headline before it fetches anything:
    when the first request, for baseball, fails, the post ends with that
    exception and the headline is the only message sent. *)
Theorem post_today_schedule_failure (e : exn) (st : state) :
  str_truthy (CHANNEL_ID w) = true ->
  str_truthy (ODDS_API_KEY w) = true ->
  odds_api_get w "baseball_mlb" = Raise e ->
  post_today w st
  = (Raise e, push_chat st ("📅 Today’s slate (" +:+ when w +:+ ")")).
Proof.
  intros Hch Hkey Hfail. unfold post_today. rewrite Hch, Hkey. cbn [negb].
  assert (Hget : forall st0, get_today_by_league w "mlb" st0 = (Raise e, st0)).
  { intros st0. unfold get_today_by_league, odds_upcoming.
    change (dict_get SPORT_KEYS "mlb") with (Some "baseball_mlb").
    rewrite Hkey. cbn [negb].
    unfold mbind, M_bind, lift. by rewrite Hfail. }
  cbn -[get_today_by_league when]. unfold mbind, M_bind, send.
  by rewrite Hget.
Qed.
End CommandFacts.

Lemma without_api_key_example :
  cmd_today quiet_world ["all"] fresh_state
  = (Ok tt, push_chat fresh_state "Set ODDS_API_KEY env var to fetch schedules.")
  /\ post_today quiet_world fresh_state
     = (Ok tt, if str_truthy (CHANNEL_ID quiet_world)
               then push_chat fresh_state "Set ODDS_API_KEY to fetch schedules."
               else fresh_state)
  /\ get_today_by_league quiet_world "mlb" fresh_state = (Ok [], fresh_state)
  /\ odds_upcoming quiet_world "mlb" fresh_state = (Ok [], fresh_state).
Proof.
  apply (without_api_key quiet_world ["all"] "mlb" "mlb" fresh_state).
  - reflexivity.
  - simpl. tauto.
Defined.

Lemma cmd_today_bad_arguments_example :
  cmd_today idle_world [] fresh_state
  = (Ok tt, push_chat fresh_state "Usage: /today all|mlb|nfl|ufc")
  /\ cmd_today idle_world ["NBA"; "now"] fresh_state
     = (Ok tt, push_chat fresh_state "Use: all|mlb|nfl|ufc").
Proof.
  apply (cmd_today_bad_arguments idle_world "NBA" ["now"] fresh_state).
  - reflexivity.
  - vm_compute. intros [H | [H | [H | [H | []]]]]; discriminate H.
Defined.

Lemma cmd_today_schedule_failure_example :
  get_today_by_league failing_world "nfl" fresh_state = (Raise HTTPError, fresh_state)
  /\ cmd_today failing_world ["nfl"] fresh_state = (Raise HTTPError, fresh_state).
Proof.
  apply (cmd_today_schedule_failure failing_world "nfl" HTTPError fresh_state).
  - reflexivity.
  - simpl. tauto.
  - reflexivity.
Defined.

Lemma post_today_schedule_failure_example :
  post_today failing_world fresh_state
  = (Raise HTTPError,
     push_chat fresh_state ("📅 Today’s slate (" +:+ when failing_world +:+ ")")).
Proof.
  apply (post_today_schedule_failure failing_world HTTPError fresh_state); reflexivity.
Defined.
